(** * SolDraft (src/App.tsx): the draft refinement orchestrator

    A shallow embedding of the logic of the [App] component: the avoid-word
    list editing ([addAvoidWord], [removeAvoidWord]), the prompt assembled by
    [handleRefine], the settlement of the text-generation call, and
    [copyToClipboard] with its timer.

    JavaScript strings are sequences of UTF-16 code units; they are modelled
    as [list N].  The component state is the tuple of [useState] cells; the
    effects of the handlers (service calls, [console.error], clipboard writes,
    [setTimeout]) are recorded in an explicit world around that state. *)

From Stdlib Require Import List NArith Bool Ascii String Lia.
Import ListNotations.

Local Open Scope N_scope.
Local Open Scope list_scope.

(** ** JavaScript strings *)

Module Js.

Definition jsstring := list N.

(** A literal of the source text, as code units. *)
Definition lit (s : string) : jsstring :=
  map N_of_ascii (list_ascii_of_string s).

Definition NL : jsstring := [10].
Definition QUOTE : jsstring := [34].

(** Strict equality [===] on strings. *)
Definition str_eqb (a b : jsstring) : bool :=
  if list_eq_dec N.eq_dec a b then true else false.

(** Truthiness of a string: the empty string is the only falsy one. *)
Definition truthy (s : jsstring) : bool :=
  match s with
  | [] => false
  | _ :: _ => true
  end.

(** ECMAScript WhiteSpace and LineTerminator code points, the ones that
    [String.prototype.trim] strips. *)
Definition isWhiteSpace (c : N) : bool :=
  (c =? 9) || (c =? 10) || (c =? 11) || (c =? 12) || (c =? 13) ||
  (c =? 32) || (c =? 160) || (c =? 5760) ||
  ((8192 <=? c) && (c <=? 8202)) ||
  (c =? 8232) || (c =? 8233) || (c =? 8239) || (c =? 8287) ||
  (c =? 12288) || (c =? 65279).

Fixpoint trimStart (s : jsstring) : jsstring :=
  match s with
  | [] => []
  | c :: r => if isWhiteSpace c then trimStart r else s
  end.

Definition trimEnd (s : jsstring) : jsstring := rev (trimStart (rev s)).

Definition trim (s : jsstring) : jsstring := trimEnd (trimStart s).

(** [Array.prototype.join] on an array of strings. *)
Fixpoint join (sep : jsstring) (xs : list jsstring) : jsstring :=
  match xs with
  | [] => []
  | x :: rest =>
      match rest with
      | [] => x
      | _ :: _ => x ++ sep ++ join sep rest
      end
  end.

(** [Array.prototype.includes] on an array of strings. *)
Definition arr_includes (xs : list jsstring) (x : jsstring) : bool :=
  existsb (str_eqb x) xs.

(** [String.prototype.startsWith] and [String.prototype.includes]; the
    component does not call them, they state what a prompt contains. *)
Fixpoint startsWith (needle hay : jsstring) : bool :=
  match needle, hay with
  | [], _ => true
  | _ :: _, [] => false
  | a :: n', b :: h' => (a =? b) && startsWith n' h'
  end.

Fixpoint includes (needle hay : jsstring) : bool :=
  startsWith needle hay ||
  match hay with
  | [] => false
  | _ :: h' => includes needle h'
  end.

End Js.

Import Js.

(** ** Tones, actions and the prompt of [handleRefine] *)

(** [type Tone = 'professional' | 'fun' | 'casual' | 'authoritative'];
    [fun] is a keyword here, hence [fun_]. *)
Inductive Tone : Type :=
  | authoritative
  | professional
  | casual
  | fun_.

Inductive Action : Type :=
  | rephrase
  | refine
  | improve.

(** The tone table indexed by [selectedTone]. *)
Definition tonePrompt (t : Tone) : jsstring :=
  match t with
  | authoritative =>
      lit "Make it authoritative, decisive, and strategic. Focus on outcomes, clarity, and leadership. Perfect for high-stakes PM communication."
  | professional =>
      lit "Make it professional, clear, and business-appropriate. Focus on stakeholder alignment and clarity."
  | casual =>
      lit "Make it casual and friendly, like a message to a direct team or close collaborator. Use a warm, collaborative tone."
  | fun_ =>
      lit "Make it fun and full of personality! Use expressive language while remaining effective."
  end.

(** The action table indexed by [action]. *)
Definition actionPrompt (a : Action) : jsstring :=
  match a with
  | rephrase =>
      lit "Rephrase the following draft to improve flow and wording while keeping the core message identical."
  | refine =>
      lit "Refine the following draft to improve clarity, tone, and professional impact."
  | improve =>
      lit "Substantially improve the following draft by adding structure, better vocabulary, and strategic depth."
  end.

(** The action as it is interpolated by [${action}]. *)
Definition actionName (a : Action) : jsstring :=
  match a with
  | rephrase => lit "rephrase"
  | refine => lit "refine"
  | improve => lit "improve"
  end.

Definition avoidLead : jsstring :=
  lit "CRITICAL: Do NOT use any of the following words or phrases in your response: ".

Definition avoidPrompt (avoidWords : list jsstring) : jsstring :=
  match avoidWords with
  | [] => []
  | _ :: _ => avoidLead ++ join (lit ", ") avoidWords ++ lit "."
  end.

Definition INDENT : jsstring := lit "        ".

(** The template literal [prompt], line by line. *)
Definition prompt (action : Action) (selectedTone : Tone)
    (avoidWords : list jsstring) (input : jsstring) : jsstring :=
  NL ++
  INDENT ++ lit "You are SolDraft, a senior Product Management communications coach." ++ NL ++
  INDENT ++ lit "Your task is to " ++ actionName action ++ lit " the following email draft for a Product Manager." ++ NL ++
  INDENT ++ NL ++
  INDENT ++ lit "Context: The user is a Product Manager communicating with stakeholders, engineering teams, or leadership." ++ NL ++
  INDENT ++ lit "Tone Requirement: " ++ tonePrompt selectedTone ++ NL ++
  INDENT ++ lit "Action Requirement: " ++ actionPrompt action ++ NL ++
  INDENT ++ avoidPrompt avoidWords ++ NL ++
  INDENT ++ NL ++
  INDENT ++ lit "CRITICAL: Keep the response CONCISE and to the point. Product Managers value brevity. Do not exceed the length of the original draft unless absolutely necessary for clarity." ++ NL ++
  INDENT ++ NL ++
  INDENT ++ lit "Original Draft:" ++ NL ++
  INDENT ++ QUOTE ++ QUOTE ++ QUOTE ++ NL ++
  INDENT ++ input ++ NL ++
  INDENT ++ QUOTE ++ QUOTE ++ QUOTE ++ NL ++
  INDENT ++ NL ++
  INDENT ++ lit "Please provide only the " ++ actionName action ++ lit "d email text. Focus on PM-specific needs: clarity of requirements, alignment on goals, and decisive action. Do not include subject lines unless specifically asked. Do not include meta-commentary." ++ NL ++
  lit "      ".

Definition MODEL : jsstring := lit "gemini-3-flash-preview".
Definition NO_RESPONSE : jsstring := lit "No response generated.".
Definition SUN_MESSAGE : jsstring :=
  lit "The sun went behind a cloud for a moment. Please try again!".
Definition LOG_TAG : jsstring := lit "Refinement error:".

(** ** The component state: one field per [useState] cell *)

Record State : Type := mkState {
  input : jsstring;
  output : jsstring;
  selectedTone : Tone;
  isLoading : bool;
  copied : bool;
  error : option jsstring;
  avoidWords : list jsstring;
  newAvoidWord : jsstring
}.

Definition initialState : State :=
  {| input := []; output := []; selectedTone := professional;
     isLoading := false; copied := false; error := None;
     avoidWords := [lit "please"]; newAvoidWord := [] |}.

Definition setInput (v : jsstring) (s : State) : State :=
  mkState v (output s) (selectedTone s) (isLoading s) (copied s) (error s)
          (avoidWords s) (newAvoidWord s).
Definition setOutput (v : jsstring) (s : State) : State :=
  mkState (input s) v (selectedTone s) (isLoading s) (copied s) (error s)
          (avoidWords s) (newAvoidWord s).
Definition setSelectedTone (v : Tone) (s : State) : State :=
  mkState (input s) (output s) v (isLoading s) (copied s) (error s)
          (avoidWords s) (newAvoidWord s).
Definition setIsLoading (v : bool) (s : State) : State :=
  mkState (input s) (output s) (selectedTone s) v (copied s) (error s)
          (avoidWords s) (newAvoidWord s).
Definition setCopied (v : bool) (s : State) : State :=
  mkState (input s) (output s) (selectedTone s) (isLoading s) v (error s)
          (avoidWords s) (newAvoidWord s).
Definition setError (v : option jsstring) (s : State) : State :=
  mkState (input s) (output s) (selectedTone s) (isLoading s) (copied s) v
          (avoidWords s) (newAvoidWord s).
Definition setAvoidWords (v : list jsstring) (s : State) : State :=
  mkState (input s) (output s) (selectedTone s) (isLoading s) (copied s)
          (error s) v (newAvoidWord s).
Definition setNewAvoidWord (v : jsstring) (s : State) : State :=
  mkState (input s) (output s) (selectedTone s) (isLoading s) (copied s)
          (error s) (avoidWords s) v.

(** ** The world around the state: what the handlers do besides [setState] *)

(** A value thrown inside the [try] block, by its message. *)
Definition Thrown : Type := jsstring.

(** The argument of [ai.models.generateContent]. *)
Record Request : Type := mkRequest {
  model : jsstring;
  contents : jsstring
}.

(** How an issued call settles: [response.text] is a string or [undefined];
    a rejection carries what the [catch] clause receives. *)
Inductive Outcome : Type :=
  | Fulfilled (text : option jsstring)
  | Rejected (err : Thrown).

(** The callbacks handed to [setTimeout]; the component has one. *)
Inductive Callback : Type :=
  | ResetCopied.

Record World : Type := mkWorld {
  ui : State;
  inflight : list Request;
  console : list (jsstring * Thrown);
  clipboard : list jsstring;
  now : N;
  timers : list (N * Callback)
}.

Definition initialWorld : World :=
  {| ui := initialState; inflight := []; console := []; clipboard := [];
     now := 0; timers := [] |}.

Definition Handler : Type := World -> World.

Definition andThen (f g : Handler) : Handler := fun w => g (f w).
Notation "f ;; g" := (andThen f g) (at level 61, right associativity).

Definition onState (f : State -> State) : Handler := fun w =>
  mkWorld (f (ui w)) (inflight w) (console w) (clipboard w) (now w) (timers w).

Definition generateContent (r : Request) : Handler := fun w =>
  mkWorld (ui w) (inflight w ++ [r]) (console w) (clipboard w) (now w) (timers w).

Definition console_error (tag : jsstring) (err : Thrown) : Handler := fun w =>
  mkWorld (ui w) (inflight w) (console w ++ [(tag, err)]) (clipboard w) (now w)
          (timers w).

Definition writeText (text : jsstring) : Handler := fun w =>
  mkWorld (ui w) (inflight w) (console w) (text :: clipboard w) (now w) (timers w).

Definition setTimeout (cb : Callback) (delay : N) : Handler := fun w =>
  mkWorld (ui w) (inflight w) (console w) (clipboard w) (now w)
          (timers w ++ [(now w + delay, cb)]).

(** ** The handlers of [App] *)

Section App.

(** [String.prototype.toLowerCase] belongs to the runtime, with the whole
    Unicode case table behind it; the handlers are read for any such map. *)
Variable toLowerCase : jsstring -> jsstring.

Definition addAvoidWord (s : State) : State :=
  if truthy (trim (newAvoidWord s)) &&
     negb (arr_includes (avoidWords s) (toLowerCase (trim (newAvoidWord s))))
  then
    setNewAvoidWord []
      (setAvoidWords (avoidWords s ++ [toLowerCase (trim (newAvoidWord s))]) s)
  else s.

Definition removeAvoidWord (word : jsstring) (s : State) : State :=
  setAvoidWords (filter (fun w => negb (str_eqb w word)) (avoidWords s)) s.

(** The [catch] and [finally] clauses of [handleRefine]. *)
Definition catchClause (err : Thrown) : Handler :=
  console_error LOG_TAG err ;; onState (setError (Some SUN_MESSAGE)).

Definition finallyClause : Handler := onState (setIsLoading false).

(** [response.text || 'No response generated.'] *)
Definition textOrDefault (text : option jsstring) : jsstring :=
  match text with
  | Some t => if truthy t then t else NO_RESPONSE
  | None => NO_RESPONSE
  end.

(** [handleRefine] up to its [await].  [thrown] is what the [try] block
    throws before the request leaves (constructing the client), if anything;
    otherwise the call is issued and the handler suspends. *)
Definition handleRefine (action : Action) (thrown : option Thrown) : Handler :=
  fun w =>
    if negb (truthy (trim (input (ui w)))) then w
    else
      (onState (setIsLoading true) ;;
       onState (setError None) ;;
       match thrown with
       | Some err => catchClause err ;; finallyClause
       | None =>
           generateContent
             (mkRequest MODEL
                (prompt action (selectedTone (ui w)) (avoidWords (ui w))
                        (input (ui w))))
       end) w.

(** [handleRefine] from its [await] on, once the call has settled. *)
Definition handleRefine_resume (o : Outcome) : Handler :=
  match o with
  | Fulfilled text => onState (setOutput (textOrDefault text)) ;; finallyClause
  | Rejected err => catchClause err ;; finallyClause
  end.

Definition copyToClipboard : Handler := fun w =>
  (writeText (output (ui w)) ;;
   onState (setCopied true) ;;
   setTimeout ResetCopied 2000) w.

Definition runCallback (cb : Callback) : Handler :=
  match cb with
  | ResetCopied => onState (setCopied false)
  end.

(** ** The rendered controls and the event loop *)

(** [disabled={isLoading || !input.trim()}] of the three action buttons. *)
Definition actionDisabled (s : State) : bool :=
  isLoading s || negb (truthy (trim (input s))).

(** The copy button is rendered under [(output || isLoading)] and then
    [output && !isLoading]. *)
Definition copyRendered (s : State) : bool :=
  (truthy (output s) || isLoading s) && (truthy (output s) && negb (isLoading s)).

(** What the output section shows: nothing, the loading skeleton, the
    error banner or the formatted output. *)
Inductive Panel : Type :=
  | Hidden
  | Skeleton
  | Banner (message : jsstring)
  | Formatted (text : jsstring).

Definition resultPanel (s : State) : Panel :=
  if truthy (output s) || isLoading s then
    if isLoading s then Skeleton
    else
      match error s with
      | Some e => if truthy e then Banner e else Formatted (output s)
      | None => Formatted (output s)
      end
  else Hidden.

(** The events of the page.  Each is handled against the state of the
    latest render; [ClickAction] carries what the [try] block throws before
    its [await], and [Settle] how a pending call ends. *)
Inductive Event : Type :=
  | ChangeInput (v : jsstring)
  | ClickTone (t : Tone)
  | ChangeNewAvoidWord (v : jsstring)
  | ClickAdd
  | ClickRemove (word : jsstring)
  | ClickAction (action : Action) (thrown : option Thrown)
  | Settle (i : nat) (o : Outcome)
  | ClickCopy
  | Elapse (dt : N).

Fixpoint removeNth {A : Type} (i : nat) (l : list A) : list A :=
  match i, l with
  | _, [] => []
  | O, _ :: r => r
  | S j, x :: r => x :: removeNth j r
  end.

(** The [i]-th pending call settles and its handler resumes. *)
Definition settle (i : nat) (o : Outcome) : Handler := fun w =>
  match nth_error (inflight w) i with
  | None => w
  | Some _ =>
      handleRefine_resume o
        (mkWorld (ui w) (removeNth i (inflight w)) (console w) (clipboard w)
                 (now w) (timers w))
  end.

(** The clock moves on by [dt]; the timers that are due run, oldest first. *)
Definition elapse (dt : N) : Handler := fun w =>
  let t := now w + dt in
  let due := filter (fun e => fst e <=? t) (timers w) in
  let rest := filter (fun e => negb (fst e <=? t)) (timers w) in
  fold_left (fun acc e => runCallback (snd e) acc) due
    (mkWorld (ui w) (inflight w) (console w) (clipboard w) t rest).

Definition step (w : World) (e : Event) : World :=
  match e with
  | ChangeInput v => onState (setInput v) w
  | ClickTone t => onState (setSelectedTone t) w
  | ChangeNewAvoidWord v => onState (setNewAvoidWord v) w
  | ClickAdd => onState addAvoidWord w
  | ClickRemove word => onState (removeAvoidWord word) w
  | ClickAction action thrown =>
      if actionDisabled (ui w) then w else handleRefine action thrown w
  | Settle i o => settle i o w
  | ClickCopy => if copyRendered (ui w) then copyToClipboard w else w
  | Elapse dt => elapse dt w
  end.

Definition run (w : World) (es : list Event) : World := fold_left step es w.

End App.

(** A lower-casing of the ASCII letters, enough to run the handlers on
    ASCII input. *)
Definition asciiLower (s : jsstring) : jsstring :=
  map (fun c => if (65 <=? c) && (c <=? 90) then c + 32 else c) s.

(** ** Notions used by the statements below *)

(** The pending flag counts the calls in flight. *)
Definition pendingMatches (w : World) : Prop :=
  List.length (inflight w) = if isLoading (ui w) then 1%nat else 0%nat.

(** The cells [handleRefine] never writes. *)
Definition draftToneWords (w : World) : jsstring * Tone * list jsstring :=
  (input (ui w), selectedTone (ui w), avoidWords (ui w)).

(** What follows the draft in [prompt]. *)
Definition promptTail (action : Action) : jsstring :=
  NL ++
  INDENT ++ QUOTE ++ QUOTE ++ QUOTE ++ NL ++
  INDENT ++ NL ++
  INDENT ++ lit "Please provide only the " ++ actionName action ++ lit "d email text. Focus on PM-specific needs: clarity of requirements, alignment on goals, and decisive action. Do not include subject lines unless specifically asked. Do not include meta-commentary." ++ NL ++
  lit "      ".

(** The opening words of the constraint line. *)
Definition DO_NOT_USE : jsstring := lit "Do NOT use".

(** Events other than a click on the copy button, and the time a list of
    events lets pass. *)
Definition notCopy (e : Event) : bool :=
  match e with
  | ClickCopy => false
  | _ => true
  end.

Fixpoint elapsed (es : list Event) : N :=
  match es with
  | [] => 0
  | Elapse dt :: r => dt + elapsed r
  | _ :: r => elapsed r
  end.

(** A timer armed by a copy at time [t0] is still to run, or [copied] is
    already down. *)
Definition resetPending (t0 : N) (w : World) : Prop :=
  copied (ui w) = false \/
  exists t cb, In (t, cb) (timers w) /\ t <= t0 + 2000 /\ now w < t.

(** ** The tone selector *)

Module ToneSelector.

(** The icon components of the four tone buttons. *)
Inductive Icon : Type :=
  | Target
  | Briefcase
  | Coffee
  | Smile.

(** [interface ToneConfig] *)
Record ToneConfig : Type := mkToneConfig {
  id : Tone;
  label : jsstring;
  icon : Icon;
  activeClass : jsstring;
  description : jsstring
}.

Definition TONES : list ToneConfig :=
  [ mkToneConfig authoritative (lit "Authoritative") Target
      (lit "bg-amber-600 text-white shadow-lg shadow-amber-200")
      (lit "Decisive, strategic, and high-impact for PM leadership.");
    mkToneConfig professional (lit "Professional") Briefcase
      (lit "bg-indigo-600 text-white shadow-lg shadow-indigo-200")
      (lit "Polished, clear, and stakeholder-ready.");
    mkToneConfig casual (lit "Casual") Coffee
      (lit "bg-emerald-500 text-white shadow-lg shadow-emerald-100")
      (lit "Warm, approachable, and team-friendly.");
    mkToneConfig fun_ (lit "Fun") Smile
      (lit "bg-orange-500 text-white shadow-lg shadow-orange-100")
      (lit "Quirky, energetic, and full of personality.") ].

(** [selectedTone === tone.id] *)
Definition tone_eqb (a b : Tone) : bool :=
  match a, b with
  | authoritative, authoritative => true
  | professional, professional => true
  | casual, casual => true
  | fun_, fun_ => true
  | _, _ => false
  end.

Definition INACTIVE_CLASS : jsstring :=
  lit "text-slate-400 hover:text-slate-600 hover:bg-slate-50".

(** The conditional class of the button rendered for [tone]. *)
Definition buttonClass (selectedTone : Tone) (tone : ToneConfig) : jsstring :=
  if tone_eqb selectedTone (id tone) then activeClass tone else INACTIVE_CLASS.

End ToneSelector.

(** ** Further notions on worlds *)

(** Events other than a settlement. *)
Definition notSettle (e : Event) : bool :=
  match e with
  | Settle _ _ => false
  | _ => true
  end.

(** Events other than the fulfilment of a call. *)
Definition notFulfilled (e : Event) : bool :=
  match e with
  | Settle _ (Fulfilled _) => false
  | _ => true
  end.

(** The [error] cell is empty, or holds the fixed message with nothing
    pending. *)
Definition errorCell (w : World) : Prop :=
  error (ui w) = None \/
  (error (ui w) = Some SUN_MESSAGE /\ isLoading (ui w) = false).

(** Every armed timer is ahead of the clock by at most 2000 ms, and a raised
    [copied] has one behind it. *)
Definition timersAhead (w : World) : Prop :=
  Forall (fun e => now w < fst e /\ fst e <= now w + 2000) (timers w) /\
  (copied (ui w) = false \/ timers w <> []).

(** Nothing empty was handed to the clipboard. *)
Definition clipboardFilled (w : World) : Prop :=
  Forall (fun text => text <> []) (clipboard w).

(** An avoid-word is the default one or a typed word after [trim] and the
    lower-casing. *)
Definition normalisedWord (lower : jsstring -> jsstring) (word : jsstring) : Prop :=
  word = lit "please" \/
  exists typed, trim typed <> [] /\ word = lower (trim typed).

(** ** Reading the constraint line back *)

(** [String.prototype.split] with a non-empty separator: [cur] holds the
    current piece, last code unit first, and [skip] counts the code units of
    a separator just matched that are still to be passed over. *)
Fixpoint splitGo (sep : jsstring) (skip : nat) (cur s : jsstring)
    : list jsstring :=
  match s with
  | [] => [rev cur]
  | c :: r =>
      match skip with
      | S k => splitGo sep k cur r
      | O =>
          if startsWith sep s
          then rev cur :: splitGo sep (List.length sep - 1) [] r
          else splitGo sep O (c :: cur) r
      end
  end.

Definition split (sep s : jsstring) : list jsstring := splitGo sep 0 [] s.

(** The items a constraint line lists: what stands between the lead and
    the closing full stop, split at ", ". *)
Definition lineItems (line : jsstring) : list jsstring :=
  split (lit ", ") (removelast (skipn (List.length avoidLead) line)).

(** How often [word] is among [items]. *)
Definition countItem (word : jsstring) (items : list jsstring) : nat :=
  List.length (filter (str_eqb word) items).

(** The constraint line of [ws] lists every member of [ws] exactly once. *)
Definition listsEachOnce (ws : list jsstring) : Prop :=
  forall w, In w ws -> countItem w (lineItems (avoidPrompt ws)) = 1%nat.

(** * Properties *)

(** ** Strings *)

Lemma str_eqb_true_iff (a b : jsstring) : str_eqb a b = true <-> a = b.
Proof.
  unfold str_eqb. destruct (list_eq_dec N.eq_dec a b); split; congruence.
Qed.

Lemma str_eqb_false_iff (a b : jsstring) : str_eqb a b = false <-> a <> b.
Proof.
  unfold str_eqb. destruct (list_eq_dec N.eq_dec a b); split; congruence.
Qed.

Lemma arr_includes_true_iff (xs : list jsstring) (x : jsstring) :
  arr_includes xs x = true <-> In x xs.
Proof.
  unfold arr_includes. rewrite existsb_exists. split.
  - intros [y [Hy Heq]]. apply str_eqb_true_iff in Heq. now subst.
  - intros Hin. exists x. split; [assumption | now apply str_eqb_true_iff].
Qed.

Lemma arr_includes_false_iff (xs : list jsstring) (x : jsstring) :
  arr_includes xs x = false <-> ~ In x xs.
Proof.
  rewrite <- arr_includes_true_iff. destruct (arr_includes xs x); split;
    congruence.
Qed.

Lemma trimStart_nil_iff (s : jsstring) :
  trimStart s = [] <-> forallb isWhiteSpace s = true.
Proof.
  induction s as [| c r IH]; simpl.
  - tauto.
  - destruct (isWhiteSpace c); simpl; [exact IH | split; discriminate].
Qed.

Lemma trimStart_all_white (s : jsstring) :
  forallb isWhiteSpace (trimStart s) = true -> trimStart s = [].
Proof.
  induction s as [| c r IH]; simpl; [reflexivity |].
  destruct (isWhiteSpace c) eqn:Hc; [exact IH |].
  simpl. rewrite Hc. discriminate.
Qed.

Lemma forallb_rev {A : Type} (p : A -> bool) (l : list A) :
  forallb p (rev l) = forallb p l.
Proof.
  induction l as [| x r IH]; simpl; [reflexivity |].
  rewrite forallb_app, IH. simpl. rewrite andb_true_r. apply andb_comm.
Qed.

(** [trim] leaves nothing exactly when every code unit is white space. *)
Lemma trim_nil_iff (s : jsstring) :
  trim s = [] <-> forallb isWhiteSpace s = true.
Proof.
  unfold trim, trimEnd. split.
  - intros H.
    assert (Hr : trimStart (rev (trimStart s)) = []).
    { apply (f_equal (@rev N)) in H. now rewrite rev_involutive in H. }
    apply trimStart_nil_iff in Hr. rewrite forallb_rev in Hr.
    apply trimStart_nil_iff. now apply trimStart_all_white.
  - intros H. apply trimStart_nil_iff in H. now rewrite H.
Qed.

Lemma startsWith_app (n r : jsstring) : startsWith n (n ++ r) = true.
Proof.
  induction n as [| a n IH]; simpl; [reflexivity |].
  now rewrite N.eqb_refl.
Qed.

Lemma startsWith_true_iff (n h : jsstring) :
  startsWith n h = true <-> exists post, h = n ++ post.
Proof.
  revert h. induction n as [| a n IH]; intros h; simpl.
  - split; [intros _; now exists h | reflexivity].
  - destruct h as [| b h].
    + split; [discriminate | intros [post H]; discriminate].
    + rewrite andb_true_iff, N.eqb_eq, IH. split.
      * intros [-> [post ->]]. now exists post.
      * intros [post H]. injection H as -> ->. split; [reflexivity | now exists post].
Qed.

(** [includes] is the usual notion of a contiguous occurrence. *)
Lemma includes_true_iff (n h : jsstring) :
  includes n h = true <-> exists pre post, h = pre ++ n ++ post.
Proof.
  induction h as [| b h IH].
  - simpl. rewrite orb_false_r, startsWith_true_iff. split.
    + intros [post H]. now exists [], post.
    + intros [pre [post H]]. destruct pre; [now exists post | discriminate].
  - cbn [includes]. rewrite orb_true_iff, startsWith_true_iff, IH. split.
    + intros [[post H] | [pre [post H]]].
      * now exists [], post.
      * exists (b :: pre), post. now rewrite H.
    + intros [pre [post H]]. destruct pre as [| c pre].
      * left. now exists post.
      * right. injection H as -> ->. now exists pre, post.
Qed.

(** A needle that avoids the first code unit of [q] cannot straddle the
    boundary between [d] and [q]. *)
Lemma startsWith_app_foreign (n d q : jsstring) (c : N) :
  ~ In c n -> startsWith n (d ++ c :: q) = startsWith n d.
Proof.
  revert d. induction n as [| a n IH]; intros d Hc; [now destruct d |].
  destruct d as [| b d]; simpl.
  - destruct (N.eqb_spec a c) as [-> |]; [| reflexivity].
    exfalso. apply Hc. now left.
  - rewrite IH; [reflexivity |]. intros Hin. apply Hc. now right.
Qed.

Lemma includes_app_foreign (n d q : jsstring) (c : N) :
  n <> [] -> ~ In c n ->
  includes n (d ++ c :: q) = includes n d || includes n (c :: q).
Proof.
  intros Hn Hc. induction d as [| b d IH].
  - destruct n; [congruence | reflexivity].
  - change ((b :: d) ++ c :: q) with (b :: (d ++ c :: q)).
    cbn [includes]. rewrite IH.
    change (b :: d ++ c :: q) with ((b :: d) ++ c :: q).
    rewrite startsWith_app_foreign by assumption.
    now rewrite orb_assoc.
Qed.

Lemma join_cons (sep x y : jsstring) (rest : list jsstring) :
  join sep (x :: y :: rest) = x ++ sep ++ join sep (y :: rest).
Proof. reflexivity. Qed.

(** Every element of the array occurs in its [join]. *)
Lemma join_includes (sep : jsstring) (xs : list jsstring) (x : jsstring) :
  In x xs -> exists pre post, join sep xs = pre ++ x ++ post.
Proof.
  induction xs as [| y rest IH]; [contradiction |].
  intros [-> | Hin].
  - destruct rest as [| z rest].
    + exists [], []. simpl. now rewrite app_nil_r.
    + exists [], (sep ++ join sep (z :: rest)). now rewrite join_cons.
  - destruct rest as [| z rest]; [contradiction |].
    destruct (IH Hin) as [pre [post H]].
    exists (y ++ sep ++ pre), post. rewrite join_cons, H.
    now rewrite <- !app_assoc.
Qed.

(** The length of a [join]: each element once, and a separator between
    neighbours. *)
Lemma join_length (sep : jsstring) (xs : list jsstring) :
  List.length (join sep xs) =
  (list_sum (map (@List.length N) xs) + List.length sep * (List.length xs - 1))%nat.
Proof.
  induction xs as [| y rest IH]; [simpl; lia |].
  destruct rest as [| z rest].
  - simpl. lia.
  - rewrite join_cons, !length_app, IH.
    cbn [map List.length]. unfold list_sum. cbn [fold_right].
    replace (S (List.length rest) - 1)%nat with (List.length rest) by lia.
    replace (S (S (List.length rest)) - 1)%nat with (S (List.length rest)) by lia.
    lia.
Qed.

(** ** The avoid-word list *)

Lemma State_eta (s : State) :
  mkState (input s) (output s) (selectedTone s) (isLoading s) (copied s)
          (error s) (avoidWords s) (newAvoidWord s) = s.
Proof. now destruct s. Qed.

Lemma filter_id {A : Type} (p : A -> bool) (l : list A) :
  (forall x, In x l -> p x = true) -> filter p l = l.
Proof.
  induction l as [| x r IH]; intros H; simpl; [reflexivity |].
  rewrite (H x (or_introl eq_refl)). f_equal. apply IH.
  intros y Hy. apply H. now right.
Qed.

Lemma addAvoidWord_skip (lower : jsstring -> jsstring) (s : State) :
  trim (newAvoidWord s) = [] \/
  In (lower (trim (newAvoidWord s))) (avoidWords s) ->
  addAvoidWord lower s = s.
Proof.
  intros H. unfold addAvoidWord.
  destruct H as [H | H].
  - now rewrite H.
  - apply arr_includes_true_iff in H. rewrite H.
    now rewrite andb_false_r.
Qed.

Lemma addAvoidWord_push (lower : jsstring -> jsstring) (s : State) :
  trim (newAvoidWord s) <> [] ->
  ~ In (lower (trim (newAvoidWord s))) (avoidWords s) ->
  addAvoidWord lower s =
  setNewAvoidWord []
    (setAvoidWords (avoidWords s ++ [lower (trim (newAvoidWord s))]) s).
Proof.
  intros Hne Hnin. unfold addAvoidWord.
  apply arr_includes_false_iff in Hnin. rewrite Hnin.
  destruct (trim (newAvoidWord s)); [congruence | reflexivity].
Qed.

(** C5.  [addAvoidWord] normalises the typed word with [trim] and then
    [toLowerCase].  When the trimmed word is empty, or the normalised word is
    already listed, it changes nothing; otherwise the normalised word is
    appended at the end of the list (and the input box is cleared, nothing
    else changes).  In particular, for a [toLowerCase] that maps "Please" and
    "please" to "please", adding "Please" and then "please " to an empty list
    leaves exactly the one entry "please". *)
Theorem addAvoidWord_normalises (toLowerCase : jsstring -> jsstring) :
  (forall s : State,
     let word := toLowerCase (trim (newAvoidWord s)) in
     (trim (newAvoidWord s) = [] -> addAvoidWord toLowerCase s = s) /\
     (In word (avoidWords s) -> addAvoidWord toLowerCase s = s) /\
     (trim (newAvoidWord s) <> [] -> ~ In word (avoidWords s) ->
      avoidWords (addAvoidWord toLowerCase s) = avoidWords s ++ [word] /\
      newAvoidWord (addAvoidWord toLowerCase s) = [] /\
      setNewAvoidWord (newAvoidWord s)
        (setAvoidWords (avoidWords s) (addAvoidWord toLowerCase s)) = s)) /\
  (toLowerCase (lit "Please") = lit "please" ->
   toLowerCase (lit "please") = lit "please" ->
   forall s0 : State,
     avoidWords s0 = [] ->
     avoidWords
       (addAvoidWord toLowerCase
          (setNewAvoidWord (lit "please ")
             (addAvoidWord toLowerCase
                (setNewAvoidWord (lit "Please") s0)))) = [lit "please"]).
Proof.
  split.
  - intros s word. split; [| split].
    + intros H. apply addAvoidWord_skip. now left.
    + intros H. apply addAvoidWord_skip. now right.
    + intros Hne Hnin. rewrite addAvoidWord_push by assumption.
      split; [reflexivity | split; [reflexivity |]].
      unfold setNewAvoidWord, setAvoidWords. cbn. apply State_eta.
  - intros HP Hp s0 H0.
    assert (T1 : trim (lit "Please") = lit "Please") by reflexivity.
    assert (T2 : trim (lit "please ") = lit "please") by reflexivity.
    rewrite (addAvoidWord_push toLowerCase (setNewAvoidWord (lit "Please") s0)).
    + rewrite addAvoidWord_skip.
      * cbn [avoidWords setNewAvoidWord setAvoidWords newAvoidWord].
        now rewrite H0, T1, HP.
      * right. cbn [avoidWords setNewAvoidWord setAvoidWords newAvoidWord].
        rewrite H0, T1, T2, HP, Hp. now left.
    + cbn [newAvoidWord setNewAvoidWord]. now rewrite T1.
    + cbn [avoidWords newAvoidWord setNewAvoidWord]. now rewrite H0.
Qed.

(** The second part of C5 run with the ASCII lower-casing, from the empty
    list. *)
Lemma addAvoidWord_normalises_witness :
  avoidWords
    (addAvoidWord asciiLower
       (setNewAvoidWord (lit "please ")
          (addAvoidWord asciiLower
             (setNewAvoidWord (lit "Please")
                (setAvoidWords [] initialState))))) = [lit "please"] /\
  addAvoidWord asciiLower (setNewAvoidWord (lit "  ") initialState) =
    setNewAvoidWord (lit "  ") initialState /\
  avoidWords (addAvoidWord asciiLower (setNewAvoidWord (lit " Just") initialState)) =
    [lit "please"; lit "just"].
Proof.
  destruct (addAvoidWord_normalises asciiLower) as [Hgen Hex].
  split; [| split].
  - apply Hex; reflexivity.
  - apply (proj1 (Hgen (setNewAvoidWord (lit "  ") initialState))).
    reflexivity.
  - apply (proj2 (proj2 (Hgen (setNewAvoidWord (lit " Just") initialState)))).
    + discriminate.
    + cbn. intros [H | H]; [discriminate H | exact H].
Defined.

(** C6.  [removeAvoidWord word] leaves a list without [word], keeps every
    other entry, touches no other cell, and when [word] was not listed the
    state is exactly what it was. *)
Theorem removeAvoidWord_removes (word : jsstring) (s : State) :
  ~ In word (avoidWords (removeAvoidWord word s)) /\
  (forall w, w <> word ->
     (In w (avoidWords (removeAvoidWord word s)) <-> In w (avoidWords s))) /\
  setAvoidWords (avoidWords s) (removeAvoidWord word s) = s /\
  (~ In word (avoidWords s) -> removeAvoidWord word s = s).
Proof.
  unfold removeAvoidWord. cbn [avoidWords setAvoidWords].
  split; [| split; [| split]].
  - rewrite filter_In. intros [_ H]. apply negb_true_iff in H.
    apply str_eqb_false_iff in H. congruence.
  - intros w Hw. rewrite filter_In. split; [tauto |].
    intros Hin. split; [assumption |].
    apply negb_true_iff. now apply str_eqb_false_iff.
  - unfold setAvoidWords. cbn. apply State_eta.
  - intros Hnin. rewrite filter_id; [apply State_eta |].
    intros x Hx. apply negb_true_iff, str_eqb_false_iff. congruence.
Qed.

(** C6 on the default list: removing "sorry", which is not listed, and
    removing "please", which is. *)
Lemma removeAvoidWord_removes_witness :
  removeAvoidWord (lit "sorry") initialState = initialState /\
  avoidWords (removeAvoidWord (lit "please") initialState) = [].
Proof.
  split.
  - apply (proj2 (proj2 (proj2
      (removeAvoidWord_removes (lit "sorry") initialState)))).
    simpl. intros [H | H]; [discriminate H | exact H].
  - reflexivity.
Defined.

(** ** Submitting a draft *)

(** C2.  When the draft is empty or holds white space only, [handleRefine]
    returns at once: the world it leaves is the world it found, so no call
    is issued and no cell changes.  The same holds for a click on an action
    button. *)
Theorem handleRefine_blank_draft (toLowerCase : jsstring -> jsstring)
    (action : Action) (thrown : option Thrown) (w : World) :
  forallb isWhiteSpace (input (ui w)) = true ->
  handleRefine action thrown w = w /\
  step toLowerCase w (ClickAction action thrown) = w.
Proof.
  intros H. apply trim_nil_iff in H.
  assert (Hh : handleRefine action thrown w = w).
  { unfold handleRefine. now rewrite H. }
  split; [exact Hh |].
  cbn [step]. now destruct (actionDisabled (ui w)).
Qed.

(** C2 on a draft of a space, a tab, a line feed and a no-break space. *)
Lemma handleRefine_blank_draft_witness :
  let w := onState (setInput [32; 9; 10; 160]) initialWorld in
  handleRefine improve None w = w /\
  step asciiLower w (ClickAction improve None) = w.
Proof.
  apply (handleRefine_blank_draft asciiLower improve None
           (onState (setInput [32; 9; 10; 160]) initialWorld)).
  reflexivity.
Defined.

Lemma addAvoidWord_isLoading (lower : jsstring -> jsstring) (s : State) :
  isLoading (addAvoidWord lower s) = isLoading s.
Proof.
  unfold addAvoidWord.
  now destruct (truthy _ && negb _).
Qed.

Lemma runCallbacks_keep (due : list (N * Callback)) (w : World) :
  let w' := fold_left (fun acc e => runCallback (snd e) acc) due w in
  inflight w' = inflight w /\ isLoading (ui w') = isLoading (ui w).
Proof.
  revert w. induction due as [| [t cb] due IH]; intros w; [now split |].
  cbn [fold_left]. destruct (IH (runCallback (snd (t, cb)) w)) as [Hi Hl].
  cbn zeta. rewrite Hi, Hl. now destruct cb.
Qed.

Lemma removeNth_single {A : Type} (i : nat) (l : list A) (x : A) :
  List.length l = 1%nat -> nth_error l i = Some x -> removeNth i l = [].
Proof.
  destruct l as [| y [| z l]]; try discriminate.
  intros _. destruct i as [| [| i]]; simpl; try discriminate; reflexivity.
Qed.

Lemma step_pendingMatches (lower : jsstring -> jsstring) (w : World) (e : Event) :
  pendingMatches w -> pendingMatches (step lower w e).
Proof.
  unfold pendingMatches. intros Inv.
  destruct e as [v | t | v | | word | action thrown | i o | | dt]; cbn [step].
  - exact Inv.
  - exact Inv.
  - exact Inv.
  - cbn [onState ui inflight]. now rewrite addAvoidWord_isLoading.
  - exact Inv.
  - unfold actionDisabled.
    destruct (isLoading (ui w)) eqn:Hl; cbn [orb]; [now rewrite Hl |].
    unfold handleRefine.
    destruct (negb (truthy (trim (input (ui w))))); cbn [negb];
      [now rewrite Hl |].
    destruct thrown as [err |]; cbn; [exact Inv |].
    rewrite length_app, Inv. reflexivity.
  - unfold settle. destruct (nth_error (inflight w) i) as [r |] eqn:Hn;
      [| exact Inv].
    destruct (isLoading (ui w)) eqn:Hl.
    + rewrite (removeNth_single i _ r Inv Hn). now destruct o.
    + destruct (inflight w); [now destruct i | discriminate].
  - destruct (copyRendered (ui w)); exact Inv.
  - unfold elapse.
    match goal with
    | |- context [fold_left ?f ?due ?w0] =>
        destruct (runCallbacks_keep due w0) as [Hi Hl]
    end.
    cbn zeta in Hi, Hl. now rewrite Hi, Hl.
Qed.

Lemma run_pendingMatches (lower : jsstring -> jsstring) (es : list Event)
    (w : World) :
  pendingMatches w -> pendingMatches (run lower w es).
Proof.
  revert w. induction es as [| e es IH]; intros w Inv; [exact Inv |].
  apply IH. now apply step_pendingMatches.
Qed.

(** C1.  In every world the component reaches from its initial one, at most
    one call is in flight, and while a call is in flight a click on an
    action button is rejected whatever the draft: the buttons are disabled
    by [isLoading], [handleRefine] does not run, and the world (with its
    calls in flight) stays as it is. *)
Theorem single_request_in_flight (toLowerCase : jsstring -> jsstring)
    (es : list Event) (action : Action) (thrown : option Thrown) :
  let w := run toLowerCase initialWorld es in
  (List.length (inflight w) <= 1)%nat /\
  (inflight w <> [] -> step toLowerCase w (ClickAction action thrown) = w).
Proof.
  intros w.
  assert (Inv : pendingMatches w).
  { apply run_pendingMatches. reflexivity. }
  unfold pendingMatches in Inv. split.
  - rewrite Inv. destruct (isLoading (ui w)); lia.
  - intros Hne. cbn [step]. unfold actionDisabled.
    destruct (isLoading (ui w)); [reflexivity |].
    destruct (inflight w); [congruence | discriminate].
Qed.

(** C1 after typing "hi" and clicking "refine": one call is in flight and
    a click on "improve" changes nothing. *)
Lemma single_request_in_flight_witness :
  let w := run asciiLower initialWorld
             [ChangeInput (lit "hi"); ClickAction refine None] in
  (List.length (inflight w) <= 1)%nat /\
  inflight w <> [] /\
  step asciiLower w (ClickAction improve None) = w.
Proof.
  pose proof (single_request_in_flight asciiLower
                [ChangeInput (lit "hi"); ClickAction refine None]
                improve None) as H.
  cbn zeta in *. destruct H as [Hle Hrej].
  assert (Hne : inflight (run asciiLower initialWorld
                  [ChangeInput (lit "hi"); ClickAction refine None]) <> [])
    by discriminate.
  exact (conj Hle (conj Hne (Hrej Hne))).
Defined.

(** The guard against a second call is the [disabled] attribute alone:
    [handleRefine], were it run on a pending world, would issue its call. *)
Remark handleRefine_does_not_test_isLoading :
  let w := run asciiLower initialWorld
             [ChangeInput (lit "hi"); ClickAction refine None] in
  isLoading (ui w) = true /\
  List.length (inflight (handleRefine improve None w)) = 2%nat.
Proof. split; reflexivity. Qed.

(** ** Settlement of the call *)

Lemma textOrDefault_truthy (text : option jsstring) :
  textOrDefault text <> [].
Proof.
  unfold textOrDefault. destruct text as [[| c t] |]; discriminate.
Qed.

(** C7.  When the pending call is fulfilled, [output] becomes the returned
    text as it is if that text is non-empty, and the placeholder
    "No response generated." if the text is empty or absent; it is never the
    empty string.  The pending flag is cleared. *)
Theorem success_stores_text (i : nat) (r : Request) (text : option jsstring)
    (w : World) :
  nth_error (inflight w) i = Some r ->
  let w' := settle i (Fulfilled text) w in
  (forall t, text = Some t -> t <> [] -> output (ui w') = t) /\
  (text = None \/ text = Some [] -> output (ui w') = NO_RESPONSE) /\
  output (ui w') <> [] /\
  isLoading (ui w') = false.
Proof.
  intros Hn w'. subst w'. unfold settle. rewrite Hn.
  cbn. split; [| split; [| split]].
  - intros t -> Ht. destruct t; [congruence | reflexivity].
  - intros [-> | ->]; reflexivity.
  - apply textOrDefault_truthy.
  - reflexivity.
Qed.

(** C7 on the reply "Hello team," to a pending request. *)
Lemma success_stores_text_witness :
  let w := run asciiLower initialWorld
             [ChangeInput (lit "hi"); ClickAction refine None] in
  output (ui (settle 0 (Fulfilled (Some (lit "Hello team,"))) w)) =
    lit "Hello team," /\
  output (ui (settle 0 (Fulfilled (Some [])) w)) = NO_RESPONSE.
Proof.
  set (w := run asciiLower initialWorld
              [ChangeInput (lit "hi"); ClickAction refine None]).
  cbn zeta. split.
  - apply (proj1 (success_stores_text 0
               (mkRequest MODEL (prompt refine professional [lit "please"] (lit "hi")))
               (Some (lit "Hello team,")) w eq_refl) (lit "Hello team,") eq_refl).
    discriminate.
  - apply (proj1 (proj2 (success_stores_text 0
               (mkRequest MODEL (prompt refine professional [lit "please"] (lit "hi")))
               (Some []) w eq_refl))).
    now right.
Defined.

(** C8.  A failure of the call, whatever was thrown, leaves the one fixed
    message in the [error] cell, appends the thrown value to the console
    under the tag "Refinement error:", issues no further call and arms no
    timer, and clears the pending flag.  This holds when the pending call is
    rejected and when the [try] block throws before the call leaves. *)
Theorem failure_stores_message (err : Thrown) (w : World) :
  (forall i r,
     nth_error (inflight w) i = Some r ->
     let w' := settle i (Rejected err) w in
     error (ui w') = Some SUN_MESSAGE /\
     console w' = console w ++ [(LOG_TAG, err)] /\
     inflight w' = removeNth i (inflight w) /\
     timers w' = timers w /\
     isLoading (ui w') = false) /\
  (forall action,
     trim (input (ui w)) <> [] ->
     let w' := handleRefine action (Some err) w in
     error (ui w') = Some SUN_MESSAGE /\
     console w' = console w ++ [(LOG_TAG, err)] /\
     inflight w' = inflight w /\
     timers w' = timers w /\
     isLoading (ui w') = false).
Proof.
  split.
  - intros i r Hn w'. subst w'. unfold settle. rewrite Hn.
    cbn. repeat split.
  - intros action Hne w'. subst w'. unfold handleRefine.
    destruct (trim (input (ui w))); [congruence |].
    cbn. repeat split.
Qed.

(** C8 on a network error answering the request for "hi". *)
Lemma failure_stores_message_witness :
  let w := run asciiLower initialWorld
             [ChangeInput (lit "hi"); ClickAction refine None] in
  let w' := settle 0 (Rejected (lit "Failed to fetch")) w in
  error (ui w') = Some SUN_MESSAGE /\
  console w' = [(LOG_TAG, lit "Failed to fetch")] /\
  inflight w' = [] /\
  isLoading (ui w') = false.
Proof.
  set (w := run asciiLower initialWorld
              [ChangeInput (lit "hi"); ClickAction refine None]).
  destruct (proj1 (failure_stores_message (lit "Failed to fetch") w) 0%nat
              (mkRequest MODEL (prompt refine professional [lit "please"] (lit "hi")))
              eq_refl) as [He [Hc [Hi [_ Hl]]]].
  cbn zeta. exact (conj He (conj Hc (conj Hi Hl))).
Defined.

Lemma handleRefine_draftToneWords (action : Action) (thrown : option Thrown)
    (w : World) :
  draftToneWords (handleRefine action thrown w) = draftToneWords w.
Proof.
  unfold handleRefine.
  destruct (negb (truthy (trim (input (ui w))))); [reflexivity |].
  now destruct thrown.
Qed.

Lemma settle_draftToneWords (i : nat) (o : Outcome) (w : World) :
  draftToneWords (settle i o w) = draftToneWords w.
Proof.
  unfold settle.
  destruct (nth_error (inflight w) i); [| reflexivity].
  now destruct o.
Qed.


(** After a success with "Hello team," a second request that fails keeps
    that text in [output]. *)
Example output_survives_failure :
  let w := run asciiLower initialWorld
             [ChangeInput (lit "hi"); ClickAction refine None;
              Settle 0 (Fulfilled (Some (lit "Hello team,")));
              ClickAction improve None;
              Settle 0 (Rejected (lit "Failed to fetch"))] in
  output (ui w) = lit "Hello team," /\ error (ui w) = Some SUN_MESSAGE.
Proof. split; reflexivity. Qed.

(** Where the stored message is shown: the banner replaces an earlier
    output, and the section stays hidden when there is none. *)
Remark failure_on_panel :
  let first := run asciiLower initialWorld
                 [ChangeInput (lit "hi"); ClickAction refine None;
                  Settle 0 (Rejected (lit "Failed to fetch"))] in
  let later := run asciiLower initialWorld
                 [ChangeInput (lit "hi"); ClickAction refine None;
                  Settle 0 (Fulfilled (Some (lit "Hello team,")));
                  ClickAction improve None;
                  Settle 0 (Rejected (lit "Failed to fetch"))] in
  resultPanel (ui first) = Hidden /\
  resultPanel (ui later) = Banner SUN_MESSAGE.
Proof. split; reflexivity. Qed.

(** ** Copying the result *)

Lemma runCallbacks_copied (due : list (N * Callback)) (w : World) :
  due <> [] ->
  copied (ui (fold_left (fun acc e => runCallback (snd e) acc) due w)) = false.
Proof.
  intros Hne. destruct (exists_last Hne) as [front [[t cb] ->]].
  rewrite fold_left_app. cbn [fold_left]. now destruct cb.
Qed.

Lemma runCallbacks_clock (due : list (N * Callback)) (w : World) :
  let w' := fold_left (fun acc e => runCallback (snd e) acc) due w in
  timers w' = timers w /\ now w' = now w.
Proof.
  revert w. induction due as [| [t cb] due IH]; intros w; [now split |].
  cbn [fold_left]. destruct (IH (runCallback (snd (t, cb)) w)) as [Ht Hn].
  cbn zeta. rewrite Ht, Hn. now destruct cb.
Qed.

Lemma runCallbacks_copied_down (due : list (N * Callback)) (w : World) :
  copied (ui w) = false ->
  copied (ui (fold_left (fun acc e => runCallback (snd e) acc) due w)) = false.
Proof.
  intros H. destruct due as [| e due]; [exact H |].
  now apply runCallbacks_copied.
Qed.

Lemma addAvoidWord_copied (lower : jsstring -> jsstring) (s : State) :
  copied (addAvoidWord lower s) = copied s.
Proof.
  unfold addAvoidWord.
  now destruct (truthy _ && negb _).
Qed.

Lemma handleRefine_clock (action : Action) (thrown : option Thrown) (w : World) :
  let w' := handleRefine action thrown w in
  copied (ui w') = copied (ui w) /\ timers w' = timers w /\ now w' = now w.
Proof.
  unfold handleRefine.
  destruct (negb (truthy (trim (input (ui w))))); [now repeat split |].
  now destruct thrown.
Qed.

Lemma settle_clock (i : nat) (o : Outcome) (w : World) :
  let w' := settle i o w in
  copied (ui w') = copied (ui w) /\ timers w' = timers w /\ now w' = now w.
Proof.
  unfold settle.
  destruct (nth_error (inflight w) i); [| now repeat split].
  now destruct o.
Qed.

Lemma step_resetPending (lower : jsstring -> jsstring) (t0 : N) (w : World)
    (e : Event) :
  notCopy e = true -> resetPending t0 w -> resetPending t0 (step lower w e).
Proof.
  intros He Inv.
  destruct e as [v | t | v | | word | action thrown | i o | | dt];
    cbn [step]; try exact Inv; try discriminate He.
  - unfold resetPending in *. cbn [onState ui timers now].
    now rewrite addAvoidWord_copied.
  - destruct (actionDisabled (ui w)); [exact Inv |].
    destruct (handleRefine_clock action thrown w) as [Hc [Ht Hn]].
    unfold resetPending in *. cbn zeta in Hc, Ht, Hn. now rewrite Hc, Ht, Hn.
  - destruct (settle_clock i o w) as [Hc [Ht Hn]].
    unfold resetPending in *. cbn zeta in Hc, Ht, Hn. now rewrite Hc, Ht, Hn.
  - unfold resetPending, elapse in *.
    match goal with
    | |- context [fold_left ?f ?due ?w0] =>
        destruct (runCallbacks_clock due w0) as [Ht Hn];
        pose proof (runCallbacks_copied due w0) as Hfire;
        pose proof (runCallbacks_copied_down due w0) as Hdown
    end.
    cbn zeta in Ht, Hn. rewrite Ht, Hn. cbn [timers now ui] in *.
    destruct Inv as [Hc | [t [cb [Hin [Hle Hlt]]]]]; [left; now apply Hdown |].
    destruct (N.leb_spec t (now w + dt)) as [Hdue | Hlater].
    + left. apply Hfire. intros Hnil.
      assert (Hd : In (t, cb) (filter (fun e => fst e <=? now w + dt) (timers w))).
      { apply filter_In. split; [exact Hin | now apply N.leb_le]. }
      rewrite Hnil in Hd. exact Hd.
    + right. exists t, cb. split; [| split; [exact Hle | exact Hlater]].
      apply filter_In. split; [exact Hin |].
      apply negb_true_iff. now apply N.leb_gt.
Qed.

Lemma step_now (lower : jsstring -> jsstring) (w : World) (e : Event) :
  now (step lower w e) = now w + elapsed [e].
Proof.
  destruct e as [v | t | v | | word | action thrown | i o | | dt];
    cbn [step elapsed]; rewrite ?N.add_0_r; try reflexivity.
  - destruct (actionDisabled (ui w)); [reflexivity |].
    apply (handleRefine_clock action thrown w).
  - apply (settle_clock i o w).
  - now destruct (copyRendered (ui w)).
  - unfold elapse.
    match goal with
    | |- context [fold_left ?f ?due ?w0] =>
        destruct (runCallbacks_clock due w0) as [_ Hn]
    end.
    cbn zeta in Hn. now rewrite Hn.
Qed.

Lemma run_resetPending (lower : jsstring -> jsstring) (t0 : N)
    (es : list Event) (w : World) :
  forallb notCopy es = true -> resetPending t0 w ->
  resetPending t0 (run lower w es) /\
  now (run lower w es) = now w + elapsed es.
Proof.
  revert w. induction es as [| e es IH]; intros w Hes Inv.
  - split; [exact Inv | cbn; now rewrite N.add_0_r].
  - cbn [forallb] in Hes. apply andb_true_iff in Hes as [He Hes].
    destruct (IH (step lower w e) Hes (step_resetPending lower t0 w e He Inv))
      as [Inv' Hnow].
    change (run lower w (e :: es)) with (run lower (step lower w e) es).
    split; [exact Inv' |].
    rewrite Hnow, step_now. destruct e; cbn [elapsed]; lia.
Qed.

(** C9.  [copyToClipboard] hands the current [output], as it is, to the
    clipboard, raises [copied], and arms a timer 2000 ms ahead.  Whatever
    happens next short of another copy, once 2000 ms or more have elapsed
    [copied] is false again; and with no older timer pending it stays true
    for any shorter time. *)
Theorem copy_then_reset (toLowerCase : jsstring -> jsstring) (w : World) :
  let w' := copyToClipboard w in
  clipboard w' = output (ui w) :: clipboard w /\
  copied (ui w') = true /\
  timers w' = timers w ++ [(now w + 2000, ResetCopied)] /\
  (forall es, forallb notCopy es = true -> 2000 <= elapsed es ->
     copied (ui (run toLowerCase w' es)) = false) /\
  (forall dt, dt < 2000 -> timers w = [] -> copied (ui (elapse dt w')) = true).
Proof.
  cbn zeta. split; [reflexivity | split; [reflexivity | split; [reflexivity |]]].
  split.
  - intros es Hes Hdt.
    assert (Inv : resetPending (now w) (copyToClipboard w)).
    { right. exists (now w + 2000), ResetCopied.
      split; [| split; [lia | cbn; lia]].
      cbn. apply in_or_app. right. now left. }
    destruct (run_resetPending toLowerCase (now w) es _ Hes Inv) as [Inv' Hnow].
    destruct Inv' as [Hc | [t [cb [_ [Hle Hlt]]]]]; [exact Hc |].
    rewrite Hnow in Hlt. cbn [copyToClipboard] in Hlt.
    change (now (copyToClipboard w)) with (now w) in Hlt. lia.
  - intros dt Hdt Hnil. unfold elapse.
    unfold copyToClipboard, andThen, setTimeout, onState, writeText.
    cbn [timers now]. rewrite Hnil. cbn [app filter fst].
    destruct (N.leb_spec (now w + 2000) (now w + dt)) as [Hle | _]; [lia |].
    reflexivity.
Qed.

(** C9 on the result "Hello team,": copied, still flagged after 1999 ms,
    reset after 2000 ms. *)
Lemma copy_then_reset_witness :
  let w := run asciiLower initialWorld
             [ChangeInput (lit "hi"); ClickAction refine None;
              Settle 0 (Fulfilled (Some (lit "Hello team,")))] in
  clipboard (step asciiLower w ClickCopy) = [lit "Hello team,"] /\
  copied (ui (run asciiLower w [ClickCopy; Elapse 1999])) = true /\
  copied (ui (run asciiLower w [ClickCopy; Elapse 2000])) = false.
Proof.
  set (w := run asciiLower initialWorld
              [ChangeInput (lit "hi"); ClickAction refine None;
               Settle 0 (Fulfilled (Some (lit "Hello team,")))]).
  destruct (copy_then_reset asciiLower w) as [Hc [_ [_ [Hreset Hkeep]]]].
  cbn zeta. split; [exact Hc | split].
  - apply (Hkeep 1999); reflexivity.
  - apply (Hreset [Elapse 2000]); [reflexivity | discriminate].
Defined.

(** ** The prompt *)

Lemma startsWith_cancel (a n h : jsstring) :
  startsWith n h = true -> startsWith (a ++ n) (a ++ h) = true.
Proof.
  intros H. induction a as [| c a IH]; simpl; [exact H |].
  now rewrite N.eqb_refl.
Qed.

Lemma startsWith_includes (n h : jsstring) :
  startsWith n h = true -> includes n h = true.
Proof. intros H. destruct h; simpl; now rewrite H. Qed.

Lemma includes_skip (a n h : jsstring) :
  includes n h = true -> includes n (a ++ h) = true.
Proof.
  intros H. induction a as [| c a IH]; [exact H |].
  change ((c :: a) ++ h) with (c :: (a ++ h)). cbn [includes].
  rewrite IH. apply orb_true_r.
Qed.

(** Find a needle, written with the segments of the template, in a
    right-nested concatenation. *)
Ltac starts_here :=
  first [ apply startsWith_cancel; starts_here | apply startsWith_app ].
Ltac occurs :=
  first [ apply startsWith_includes; starts_here
        | apply includes_skip; occurs ].

Lemma tonePrompt_inj (t1 t2 : Tone) : tonePrompt t1 = tonePrompt t2 -> t1 = t2.
Proof. destruct t1, t2; intros H; first [reflexivity | discriminate H]. Qed.

Lemma actionPrompt_inj (a1 a2 : Action) :
  actionPrompt a1 = actionPrompt a2 -> a1 = a2.
Proof. destruct a1, a2; intros H; first [reflexivity | discriminate H]. Qed.

(** C3.  Whatever the tone, the action, the avoid-words and the draft, the
    prompt has a line "Tone Requirement: " followed by the fragment of that
    tone and nothing else, a line "Action Requirement: " followed by the
    fragment of that action and nothing else, and the draft as it is,
    on the lines between two lines of three double quotes.  The two tables
    give distinct tones and distinct actions distinct fragments.  For a
    draft that is not blank, this prompt is the [contents] of the request
    [handleRefine] issues. *)
Theorem prompt_carries_fragments (action : Action) (tone : Tone)
    (ws : list jsstring) (draft : jsstring) :
  let p := prompt action tone ws draft in
  includes (NL ++ INDENT ++ lit "Tone Requirement: " ++ tonePrompt tone ++ NL) p
    = true /\
  includes (NL ++ INDENT ++ lit "Action Requirement: " ++ actionPrompt action ++ NL) p
    = true /\
  includes (NL ++ INDENT ++ QUOTE ++ QUOTE ++ QUOTE ++ NL ++
            INDENT ++ draft ++ NL ++
            INDENT ++ QUOTE ++ QUOTE ++ QUOTE ++ NL) p = true /\
  (forall t', tonePrompt t' = tonePrompt tone -> t' = tone) /\
  (forall a', actionPrompt a' = actionPrompt action -> a' = action) /\
  (forall w : World,
     trim (input (ui w)) <> [] ->
     inflight (handleRefine action None w) =
     inflight w ++
       [mkRequest MODEL
          (prompt action (selectedTone (ui w)) (avoidWords (ui w))
                  (input (ui w)))]).
Proof.
  cbn zeta. unfold prompt.
  split; [occurs | split; [occurs | split; [occurs |]]].
  split; [intros t'; apply tonePrompt_inj |].
  split; [intros a'; apply actionPrompt_inj |].
  intros w Hne. unfold handleRefine.
  destruct (trim (input (ui w))); [congruence | reflexivity].
Qed.

(** C3 on the request issued for the draft "hi" in the initial state. *)
Lemma prompt_carries_fragments_witness :
  let w := onState (setInput (lit "hi")) initialWorld in
  inflight (handleRefine refine None w) =
  [mkRequest MODEL (prompt refine professional [lit "please"] (lit "hi"))].
Proof.
  apply (proj2 (proj2 (proj2 (proj2 (proj2
           (prompt_carries_fragments refine professional [lit "please"]
              (lit "hi")))))))
    with (w := onState (setInput (lit "hi")) initialWorld).
  discriminate.
Defined.

Lemma prompt_empty_head (action : Action) (tone : Tone) (draft : jsstring) :
  includes DO_NOT_USE (prompt action tone [] draft) =
  includes DO_NOT_USE (draft ++ promptTail action).
Proof. destruct action, tone; vm_compute; reflexivity. Qed.

Lemma promptTail_clean (action : Action) :
  includes DO_NOT_USE (promptTail action) = false.
Proof. destruct action; vm_compute; reflexivity. Qed.

Lemma prompt_empty_avoid (action : Action) (tone : Tone) (draft : jsstring) :
  includes DO_NOT_USE (prompt action tone [] draft) =
  includes DO_NOT_USE draft.
Proof.
  rewrite prompt_empty_head.
  change (promptTail action) with (10 :: tl (promptTail action)).
  rewrite includes_app_foreign.
  - change (10 :: tl (promptTail action)) with (promptTail action).
    rewrite promptTail_clean. apply orb_false_r.
  - discriminate.
  - vm_compute. intuition discriminate.
Qed.

Lemma NoDup_snoc {A : Type} (l : list A) (x : A) :
  NoDup l -> ~ In x l -> NoDup (l ++ [x]).
Proof.
  intros Hl Hx. apply NoDup_rev in Hl. rewrite <- (rev_involutive (l ++ [x])).
  apply NoDup_rev. rewrite rev_app_distr. cbn. constructor; [| exact Hl].
  now rewrite <- in_rev.
Qed.

Lemma addAvoidWord_NoDup (lower : jsstring -> jsstring) (s : State) :
  NoDup (avoidWords s) -> NoDup (avoidWords (addAvoidWord lower s)).
Proof.
  intros H. unfold addAvoidWord.
  destruct (truthy (trim (newAvoidWord s))); cbn [andb]; [| exact H].
  destruct (arr_includes _ _) eqn:Hinc; cbn [negb]; [exact H |].
  cbn [avoidWords setNewAvoidWord setAvoidWords].
  apply NoDup_snoc; [exact H | now apply arr_includes_false_iff].
Qed.

Lemma runCallbacks_avoidWords (due : list (N * Callback)) (w : World) :
  avoidWords (ui (fold_left (fun acc e => runCallback (snd e) acc) due w)) =
  avoidWords (ui w).
Proof.
  revert w. induction due as [| [t cb] due IH]; intros w; [reflexivity |].
  cbn [fold_left]. rewrite IH. now destruct cb.
Qed.

Lemma step_NoDup (lower : jsstring -> jsstring) (w : World) (e : Event) :
  NoDup (avoidWords (ui w)) -> NoDup (avoidWords (ui (step lower w e))).
Proof.
  intros H.
  destruct e as [v | t | v | | word | action thrown | i o | | dt]; cbn [step].
  - exact H.
  - exact H.
  - exact H.
  - now apply addAvoidWord_NoDup.
  - now apply NoDup_filter.
  - destruct (actionDisabled (ui w)); [exact H |].
    pose proof (handleRefine_draftToneWords action thrown w) as F.
    unfold draftToneWords in F. now injection F as _ _ ->.
  - pose proof (settle_draftToneWords i o w) as F.
    unfold draftToneWords in F. now injection F as _ _ ->.
  - now destruct (copyRendered (ui w)).
  - unfold elapse. now rewrite runCallbacks_avoidWords.
Qed.

Lemma run_NoDup (lower : jsstring -> jsstring) (es : list Event) (w : World) :
  NoDup (avoidWords (ui w)) -> NoDup (avoidWords (ui (run lower w es))).
Proof.
  revert w. induction es as [| e es IH]; intros w H; [exact H |].
  apply IH. now apply step_NoDup.
Qed.

Lemma splitGo_piece (w cur tail : jsstring) :
  includes (lit ", ") w = false ->
  tail = [] \/ (exists r, tail = 44 :: r) ->
  splitGo (lit ", ") 0 cur (w ++ tail) = splitGo (lit ", ") 0 (rev w ++ cur) tail.
Proof.
  revert cur. induction w as [| c w IH]; intros cur Hw Ht; [reflexivity |].
  cbn [includes] in Hw. apply orb_false_iff in Hw as [Hs Hw].
  change ((c :: w) ++ tail) with (c :: (w ++ tail)). cbn [splitGo].
  assert (Hno : startsWith (lit ", ") (c :: (w ++ tail)) = false).
  { change (lit ", ") with [44; 32] in *. cbn [startsWith] in *.
    destruct (44 =? c); [| reflexivity]. cbn [andb] in *.
    destruct w as [| d w].
    - destruct Ht as [-> | [r ->]]; reflexivity.
    - cbn [app]. destruct (32 =? d); [discriminate Hs | reflexivity]. }
  rewrite Hno, IH by assumption.
  cbn [rev]. now rewrite <- app_assoc.
Qed.

Lemma splitGo_separator (cur rest : jsstring) :
  splitGo (lit ", ") 0 cur (lit ", " ++ rest) =
  rev cur :: splitGo (lit ", ") 0 [] rest.
Proof. reflexivity. Qed.

(** Splitting the [join] at ", " gives the array back when no element holds
    ", ". *)
Lemma split_join (ws : list jsstring) :
  ws <> [] ->
  (forall w, In w ws -> includes (lit ", ") w = false) ->
  split (lit ", ") (join (lit ", ") ws) = ws.
Proof.
  unfold split. induction ws as [| x rest IH]; intros Hne Hfree; [congruence |].
  destruct rest as [| y rest].
  - cbn [join]. rewrite <- (app_nil_r x) at 1.
    rewrite splitGo_piece; [| apply Hfree; now left | now left].
    cbn. now rewrite app_nil_r, rev_involutive.
  - rewrite join_cons, splitGo_piece;
      [| apply Hfree; now left | right; now eexists].
    rewrite splitGo_separator, app_nil_r, rev_involutive. f_equal.
    apply IH; [discriminate |]. intros w Hw. apply Hfree. now right.
Qed.

Lemma lineItems_avoidPrompt (ws : list jsstring) :
  ws <> [] ->
  lineItems (avoidPrompt ws) = split (lit ", ") (join (lit ", ") ws).
Proof.
  intros Hne. unfold lineItems. f_equal.
  destruct ws as [| x rest]; [congruence |]. unfold avoidPrompt.
  rewrite skipn_app, skipn_all.
  replace (List.length avoidLead - List.length avoidLead)%nat with 0%nat by lia.
  cbn [app skipn].
  change (lit ".") with [46]. apply removelast_last.
Qed.

Lemma countItem_NoDup (w : jsstring) (ws : list jsstring) :
  NoDup ws -> In w ws -> countItem w ws = 1%nat.
Proof.
  unfold countItem. induction ws as [| x rest IH]; intros Hnd Hin;
    [contradiction |].
  inversion Hnd as [| ? ? Hx Hr]; subst. cbn [filter].
  destruct (str_eqb w x) eqn:He.
  - apply str_eqb_true_iff in He. subst x. cbn [List.length]. f_equal.
    destruct (filter (str_eqb w) rest) as [| y l] eqn:Hf; [reflexivity |].
    assert (Hy : In y (filter (str_eqb w) rest)) by (rewrite Hf; now left).
    apply filter_In in Hy as [Hy Heq]. apply str_eqb_true_iff in Heq.
    subst y. contradiction.
  - apply str_eqb_false_iff in He.
    destruct Hin as [-> | Hin]; [congruence | now apply IH].
Qed.

(** C4, as amended.  With no avoid-words the prompt has the words
    "Do NOT use" only where the draft itself has them, so no constraint line
    is emitted.  With a non-empty list the prompt has one line made of the
    fixed lead, the [join] of the list with ", " and a full stop: every
    member is written once, in list order (it occurs in the [join], whose
    length is the sum of the members' lengths plus two per gap).  When no
    member itself holds ", ", the items of that line are the members, so a
    list without repetition has every member listed exactly once; and the
    list the component holds never has a word twice. *)
Theorem avoid_line (action : Action) (tone : Tone) (draft : jsstring) :
  includes DO_NOT_USE (prompt action tone [] draft) =
    includes DO_NOT_USE draft /\
  (forall ws : list jsstring,
     ws <> [] ->
     includes (NL ++ INDENT ++ avoidPrompt ws ++ NL)
              (prompt action tone ws draft) = true /\
     avoidPrompt ws = avoidLead ++ join (lit ", ") ws ++ lit "." /\
     (forall w, In w ws ->
        exists pre post, join (lit ", ") ws = pre ++ w ++ post) /\
     List.length (join (lit ", ") ws) =
       (list_sum (map (@List.length N) ws) + 2 * (List.length ws - 1))%nat) /\
  (forall ws : list jsstring,
     ws <> [] ->
     (forall w, In w ws -> includes (lit ", ") w = false) ->
     lineItems (avoidPrompt ws) = ws /\
     (NoDup ws -> listsEachOnce ws)) /\
  (forall (toLowerCase : jsstring -> jsstring) (es : list Event),
     NoDup (avoidWords (ui (run toLowerCase initialWorld es)))).
Proof.
  split; [apply prompt_empty_avoid | split; [| split]].
  - intros ws Hne. split; [unfold prompt; occurs | split; [| split]].
    + destruct ws; [congruence | reflexivity].
    + intros w. apply join_includes.
    + apply join_length.
  - intros ws Hne Hfree.
    assert (Hitems : lineItems (avoidPrompt ws) = ws).
    { rewrite lineItems_avoidPrompt by assumption. now apply split_join. }
    split; [exact Hitems |].
    intros Hnd w Hin. rewrite Hitems. now apply countItem_NoDup.
  - intros toLowerCase es. apply run_NoDup.
    cbn. constructor; [intros [] | constructor].
Qed.

(** C4, as amended, on the lists ["please"; "sorry"] and [], with the draft
    "hi". *)
Lemma avoid_line_witness :
  includes (NL ++ INDENT ++ avoidPrompt [lit "please"; lit "sorry"] ++ NL)
           (prompt refine casual [lit "please"; lit "sorry"] (lit "hi")) = true /\
  avoidPrompt [lit "please"; lit "sorry"] =
    avoidLead ++ lit "please, sorry" ++ lit "." /\
  lineItems (avoidPrompt [lit "please"; lit "sorry"]) =
    [lit "please"; lit "sorry"] /\
  countItem (lit "sorry") (lineItems (avoidPrompt [lit "please"; lit "sorry"])) =
    1%nat /\
  includes DO_NOT_USE (prompt refine casual [] (lit "hi")) = false.
Proof.
  destruct (avoid_line refine casual (lit "hi")) as [Hempty [Hline [Hitems _]]].
  destruct (Hline [lit "please"; lit "sorry"]) as [Hinc [Heq _]];
    [discriminate |].
  destruct (Hitems [lit "please"; lit "sorry"]) as [Hsame Honce].
  - discriminate.
  - intros w [<- | [<- | []]]; reflexivity.
  - split; [exact Hinc | split; [exact Heq | split; [exact Hsame | split]]].
    + apply Honce.
      * constructor; [| constructor; [intros [] | constructor]].
        intros [H | []]. discriminate H.
      * right. now left.
    + rewrite Hempty. reflexivity.
Defined.

(** C4 as first worded fails: typing "Please, sorry" into the default list
    gives the members "please" and "please, sorry", no member twice; the
    line then reads "please, please, sorry.", which lists "please" twice and
    "please, sorry" not at all. *)
Lemma avoid_line_counterexample :
  let ws := avoidWords
              (ui (run asciiLower initialWorld
                     [ChangeNewAvoidWord (lit "Please, sorry"); ClickAdd])) in
  ws = [lit "please"; lit "please, sorry"] /\
  NoDup ws /\
  lineItems (avoidPrompt ws) = [lit "please"; lit "please"; lit "sorry"] /\
  countItem (lit "please") (lineItems (avoidPrompt ws)) = 2%nat /\
  countItem (lit "please, sorry") (lineItems (avoidPrompt ws)) = 0%nat /\
  ~ listsEachOnce ws.
Proof.
  cbn zeta.
  assert (Hws : avoidWords
                  (ui (run asciiLower initialWorld
                         [ChangeNewAvoidWord (lit "Please, sorry"); ClickAdd])) =
                [lit "please"; lit "please, sorry"]) by reflexivity.
  rewrite Hws.
  split; [reflexivity | split; [| split; [reflexivity | split;
    [reflexivity | split; [reflexivity |]]]]].
  - constructor; [| constructor; [intros [] | constructor]].
    intros [H | []]. discriminate H.
  - intros Honce. specialize (Honce (lit "please") (or_introl eq_refl)).
    discriminate Honce.
Qed.

(** * Further properties of the component *)

(** ** Shared lemmas *)

Lemma run_invariant (lower : jsstring -> jsstring) (P : World -> Prop) :
  (forall w e, P w -> P (step lower w e)) ->
  forall es w, P w -> P (run lower w es).
Proof.
  intros Hstep es. induction es as [| e es IH]; intros w Hw; [exact Hw |].
  apply IH. now apply Hstep.
Qed.

Lemma setCopied_same (s : State) : setCopied (copied s) s = s.
Proof. now destruct s. Qed.

(** Timer callbacks write the [copied] cell and nothing else. *)
Lemma runCallbacks_frame (due : list (N * Callback)) (w : World) :
  let w' := fold_left (fun acc e => runCallback (snd e) acc) due w in
  ui w' = setCopied (copied (ui w')) (ui w) /\
  console w' = console w /\ clipboard w' = clipboard w.
Proof.
  revert w. induction due as [| [t cb] due IH]; intros w.
  - cbn. now rewrite setCopied_same.
  - cbn [fold_left]. destruct (IH (runCallback (snd (t, cb)) w)) as [Hu [Hc Hb]].
    cbn zeta. rewrite Hu, Hc, Hb. now destruct cb.
Qed.

Lemma elapse_frame (dt : N) (w : World) :
  ui (elapse dt w) = setCopied (copied (ui (elapse dt w))) (ui w) /\
  inflight (elapse dt w) = inflight w /\
  console (elapse dt w) = console w /\
  clipboard (elapse dt w) = clipboard w.
Proof.
  unfold elapse.
  match goal with
  | |- context [fold_left ?f ?due ?w0] =>
      destruct (runCallbacks_frame due w0) as [Hu [Hc Hb]];
      destruct (runCallbacks_keep due w0) as [Hi _]
  end.
  cbn zeta in *. rewrite Hi, Hc, Hb. split; [exact Hu | now repeat split].
Qed.

Lemma filter_comm {A : Type} (p q : A -> bool) (l : list A) :
  filter p (filter q l) = filter q (filter p l).
Proof.
  induction l as [| x r IH]; [reflexivity |].
  cbn [filter]. destruct (q x) eqn:Hq, (p x) eqn:Hp; cbn [filter];
    rewrite ?Hq, ?Hp, IH; reflexivity.
Qed.

Lemma filter_idem {A : Type} (p : A -> bool) (l : list A) :
  filter p (filter p l) = filter p l.
Proof.
  apply filter_id. intros x Hx. now apply filter_In in Hx.
Qed.

Lemma filter_out_one (word : jsstring) (l : list jsstring) :
  NoDup l -> In word l ->
  S (List.length (filter (fun w => negb (str_eqb w word)) l)) = List.length l.
Proof.
  induction l as [| x r IH]; intros Hnd Hin; [contradiction |].
  inversion Hnd as [| ? ? Hx Hr]; subst. cbn [filter List.length].
  destruct (str_eqb x word) eqn:He; cbn [negb].
  - apply str_eqb_true_iff in He. subst x. f_equal.
    rewrite filter_id; [reflexivity |].
    intros y Hy. apply negb_true_iff, str_eqb_false_iff. congruence.
  - cbn [List.length]. f_equal. apply IH; [exact Hr |].
    destruct Hin as [-> | Hin]; [| exact Hin].
    apply str_eqb_false_iff in He. congruence.
Qed.

(** ** The avoid-word list, continued *)

(** X1.  A second [addAvoidWord] right after a first changes nothing:
    either the first did nothing, or it cleared the input box. *)
Theorem addAvoidWord_twice (toLowerCase : jsstring -> jsstring) (s : State) :
  addAvoidWord toLowerCase (addAvoidWord toLowerCase s) =
  addAvoidWord toLowerCase s.
Proof.
  unfold addAvoidWord at 2 3.
  destruct (truthy (trim (newAvoidWord s)) &&
            negb (arr_includes (avoidWords s)
                    (toLowerCase (trim (newAvoidWord s))))) eqn:Hc.
  - reflexivity.
  - unfold addAvoidWord. now rewrite Hc.
Qed.

(** X2.  When [addAvoidWord] appends a word, [removeAvoidWord] of that word
    gives the earlier list back. *)
Theorem add_then_remove (toLowerCase : jsstring -> jsstring) (s : State) :
  trim (newAvoidWord s) <> [] ->
  ~ In (toLowerCase (trim (newAvoidWord s))) (avoidWords s) ->
  avoidWords
    (removeAvoidWord (toLowerCase (trim (newAvoidWord s)))
       (addAvoidWord toLowerCase s)) = avoidWords s.
Proof.
  intros Hne Hnin. rewrite addAvoidWord_push by assumption.
  unfold removeAvoidWord. cbn [avoidWords setAvoidWords setNewAvoidWord].
  rewrite filter_app. cbn [filter].
  replace (str_eqb _ _) with true
    by (symmetry; now apply str_eqb_true_iff).
  cbn [negb]. rewrite app_nil_r. apply filter_id.
  intros x Hx. apply negb_true_iff, str_eqb_false_iff. congruence.
Qed.

Lemma add_then_remove_witness :
  avoidWords
    (removeAvoidWord (lit "just")
       (addAvoidWord asciiLower (setNewAvoidWord (lit " Just ") initialState))) =
  [lit "please"].
Proof.
  apply (add_then_remove asciiLower (setNewAvoidWord (lit " Just ") initialState)).
  - discriminate.
  - cbn. intros [H | H]; [discriminate H | exact H].
Defined.

(** X3.  Removals commute, and removing a word twice is removing it
    once. *)
Theorem removeAvoidWord_commutes (a b : jsstring) (s : State) :
  removeAvoidWord a (removeAvoidWord b s) =
    removeAvoidWord b (removeAvoidWord a s) /\
  removeAvoidWord a (removeAvoidWord a s) = removeAvoidWord a s.
Proof.
  unfold removeAvoidWord, setAvoidWords. cbn.
  split; f_equal; [apply filter_comm | apply filter_idem].
Qed.

(** X4.  In every state the component reaches, removing a listed word
    shortens the list by exactly one entry. *)
Theorem remove_listed_word (toLowerCase : jsstring -> jsstring)
    (es : list Event) (word : jsstring) :
  let w := run toLowerCase initialWorld es in
  In word (avoidWords (ui w)) ->
  S (List.length (avoidWords (ui (step toLowerCase w (ClickRemove word))))) =
  List.length (avoidWords (ui w)).
Proof.
  intros w Hin. cbn [step onState ui]. unfold removeAvoidWord.
  cbn [avoidWords setAvoidWords]. apply filter_out_one; [| exact Hin].
  apply run_NoDup. cbn. constructor; [intros [] | constructor].
Qed.

Lemma remove_listed_word_witness :
  let w := run asciiLower initialWorld [ChangeNewAvoidWord (lit "Just"); ClickAdd] in
  S (List.length (avoidWords (ui (step asciiLower w (ClickRemove (lit "please")))))) =
  List.length (avoidWords (ui w)).
Proof.
  apply (remove_listed_word asciiLower
           [ChangeNewAvoidWord (lit "Just"); ClickAdd] (lit "please")).
  now left.
Defined.

Lemma step_normalised (lower : jsstring -> jsstring) (w : World) (e : Event) :
  Forall (normalisedWord lower) (avoidWords (ui w)) ->
  Forall (normalisedWord lower) (avoidWords (ui (step lower w e))).
Proof.
  intros H.
  destruct e as [v | t | v | | word | action thrown | i o | | dt]; cbn [step].
  - exact H.
  - exact H.
  - exact H.
  - cbn [onState ui]. unfold addAvoidWord.
    destruct (truthy (trim (newAvoidWord (ui w)))) eqn:Ht; cbn [andb];
      [| exact H].
    destruct (arr_includes _ _); cbn [negb]; [exact H |].
    cbn [avoidWords setNewAvoidWord setAvoidWords].
    apply Forall_app. split; [exact H |].
    constructor; [| constructor]. right.
    exists (newAvoidWord (ui w)). split; [| reflexivity].
    intros Hnil. now rewrite Hnil in Ht.
  - cbn [onState ui]. unfold removeAvoidWord. cbn [avoidWords setAvoidWords].
    rewrite Forall_forall in *. intros x Hx. apply filter_In in Hx.
    now apply H.
  - destruct (actionDisabled (ui w)); [exact H |].
    pose proof (handleRefine_draftToneWords action thrown w) as F.
    unfold draftToneWords in F. now injection F as _ _ ->.
  - pose proof (settle_draftToneWords i o w) as F.
    unfold draftToneWords in F. now injection F as _ _ ->.
  - now destruct (copyRendered (ui w)).
  - unfold elapse. now rewrite runCallbacks_avoidWords.
Qed.

(** X5.  Every word the list ever holds is the default "please" or the
    lower-casing of a typed word that [trim] left non-empty. *)
Theorem avoidWords_normalised (toLowerCase : jsstring -> jsstring)
    (es : list Event) (word : jsstring) :
  In word (avoidWords (ui (run toLowerCase initialWorld es))) ->
  normalisedWord toLowerCase word.
Proof.
  revert word. apply Forall_forall.
  apply (run_invariant toLowerCase
           (fun w => Forall (normalisedWord toLowerCase) (avoidWords (ui w)))).
  - apply step_normalised.
  - cbn. constructor; [now left | constructor].
Qed.

Lemma avoidWords_normalised_witness :
  normalisedWord asciiLower (lit "just").
Proof.
  apply (avoidWords_normalised asciiLower
           [ChangeNewAvoidWord (lit " Just "); ClickAdd]).
  cbn. right. now left.
Defined.

(** ** The request life cycle, continued *)

Lemma addAvoidWord_cells (lower : jsstring -> jsstring) (s : State) :
  error (addAvoidWord lower s) = error s /\
  output (addAvoidWord lower s) = output s.
Proof.
  unfold addAvoidWord.
  now destruct (truthy _ && negb _).
Qed.

Lemma step_errorCell (lower : jsstring -> jsstring) (w : World) (e : Event) :
  errorCell w -> errorCell (step lower w e).
Proof.
  unfold errorCell. intros H.
  destruct e as [v | t | v | | word | action thrown | i o | | dt]; cbn [step].
  - exact H.
  - exact H.
  - exact H.
  - cbn [onState ui].
    now rewrite (proj1 (addAvoidWord_cells lower (ui w))), addAvoidWord_isLoading.
  - exact H.
  - destruct (actionDisabled (ui w)); [exact H |].
    unfold handleRefine.
    destruct (negb (truthy (trim (input (ui w))))); [exact H |].
    destruct thrown as [err |]; cbn; [right; now split | now left].
  - unfold settle. destruct (nth_error (inflight w) i); [| exact H].
    destruct o as [text | err]; cbn.
    + destruct H as [H | [H _]]; [now left | right; now split].
    + right. now split.
  - now destruct (copyRendered (ui w)).
  - destruct (elapse_frame dt w) as [Hu _]. rewrite Hu. exact H.
Qed.

Lemma reach_errorCell (lower : jsstring -> jsstring) (es : list Event) :
  errorCell (run lower initialWorld es).
Proof.
  apply (run_invariant lower errorCell).
  - apply step_errorCell.
  - now left.
Qed.

Lemma reach_pendingMatches (lower : jsstring -> jsstring) (es : list Event) :
  pendingMatches (run lower initialWorld es).
Proof. apply run_pendingMatches. reflexivity. Qed.

(** X6.  In every state the component reaches, the [error] cell is empty
    and the output section shows no banner, whatever its message, or the
    cell holds the one fixed message and nothing is loading; so while a
    request is loading the cell is empty. *)
Theorem error_cell_states (toLowerCase : jsstring -> jsstring)
    (es : list Event) :
  let w := run toLowerCase initialWorld es in
  (error (ui w) = None /\ forall m, resultPanel (ui w) <> Banner m) \/
  (error (ui w) = Some SUN_MESSAGE /\ isLoading (ui w) = false).
Proof.
  intros w. destruct (reach_errorCell toLowerCase es) as [H | H].
  - left. fold w in H. split; [exact H |].
    intros m. unfold resultPanel. rewrite H.
    destruct (truthy (output (ui w)) || isLoading (ui w));
      [destruct (isLoading (ui w)) |]; discriminate.
  - right. exact H.
Qed.

(** X7.  In every state the component reaches, the loading flag is up with
    exactly one call in flight, or down with none: the spinner never shows
    without a call to wait for, and no call runs behind an idle page. *)
Theorem spinner_tracks_call (toLowerCase : jsstring -> jsstring)
    (es : list Event) :
  let w := run toLowerCase initialWorld es in
  (isLoading (ui w) = true /\ exists r, inflight w = [r]) \/
  (isLoading (ui w) = false /\ inflight w = []).
Proof.
  intros w. pose proof (reach_pendingMatches toLowerCase es) as H.
  fold w in H. unfold pendingMatches in H.
  destruct (isLoading (ui w)).
  - left. split; [reflexivity |].
    destruct (inflight w) as [| r [| r' l]]; try discriminate. now exists r.
  - right. split; [reflexivity |].
    now destruct (inflight w).
Qed.

Lemma step_output_kept (lower : jsstring -> jsstring) (w : World) (e : Event) :
  output (ui w) <> [] -> output (ui (step lower w e)) <> [].
Proof.
  intros H.
  destruct e as [v | t | v | | word | action thrown | i o | | dt]; cbn [step].
  - exact H.
  - exact H.
  - exact H.
  - cbn [onState ui]. now rewrite (proj2 (addAvoidWord_cells lower (ui w))).
  - exact H.
  - destruct (actionDisabled (ui w)); [exact H |].
    unfold handleRefine.
    destruct (negb (truthy (trim (input (ui w))))); [exact H |].
    now destruct thrown.
  - unfold settle. destruct (nth_error (inflight w) i); [| exact H].
    destruct o as [text | err]; [apply textOrDefault_truthy | exact H].
  - now destruct (copyRendered (ui w)).
  - destruct (elapse_frame dt w) as [Hu _]. rewrite Hu. exact H.
Qed.

(** X8.  No handler ever empties [output]: once a result is there, every
    later state has a non-empty [output] and the output section stays on
    the page. *)
Theorem output_never_cleared (toLowerCase : jsstring -> jsstring)
    (w : World) (es : list Event) :
  output (ui w) <> [] ->
  output (ui (run toLowerCase w es)) <> [] /\
  resultPanel (ui (run toLowerCase w es)) <> Hidden.
Proof.
  intros H.
  assert (Ho : output (ui (run toLowerCase w es)) <> []).
  { apply (run_invariant toLowerCase (fun w => output (ui w) <> []));
      [apply step_output_kept | exact H]. }
  split; [exact Ho |].
  unfold resultPanel.
  destruct (output (ui (run toLowerCase w es))); [congruence |].
  cbn [truthy orb].
  destruct (isLoading _); [discriminate |].
  destruct (error _) as [e |]; [destruct (truthy e) |]; discriminate.
Qed.

Lemma output_never_cleared_witness :
  let w := run asciiLower initialWorld
             [ChangeInput (lit "hi"); ClickAction refine None;
              Settle 0 (Fulfilled (Some (lit "Hello team,")))] in
  let w' := run asciiLower w
              [ChangeInput []; ClickAction improve None; ClickCopy; Elapse 5000] in
  output (ui w') <> [] /\ resultPanel (ui w') <> Hidden.
Proof.
  apply (output_never_cleared asciiLower
           (run asciiLower initialWorld
              [ChangeInput (lit "hi"); ClickAction refine None;
               Settle 0 (Fulfilled (Some (lit "Hello team,")))])).
  discriminate.
Defined.

(** X9.  In every state the component reaches with a call in flight, the
    fulfilment of that call puts its text (or the placeholder) on the
    output section: no banner of an earlier failure is left over it. *)
Theorem success_on_panel (toLowerCase : jsstring -> jsstring)
    (es : list Event) (text : option jsstring) :
  let w := run toLowerCase initialWorld es in
  inflight w <> [] ->
  resultPanel (ui (step toLowerCase w (Settle 0 (Fulfilled text)))) =
  Formatted (textOrDefault text).
Proof.
  intros w Hne.
  pose proof (reach_pendingMatches toLowerCase es) as Hp.
  pose proof (reach_errorCell toLowerCase es) as He.
  fold w in Hp, He. unfold pendingMatches in Hp. unfold errorCell in He.
  destruct (inflight w) as [| r l] eqn:Hi; [congruence |].
  destruct (isLoading (ui w)) eqn:Hl; [| discriminate].
  destruct He as [He | [_ He]]; [| discriminate].
  cbn [step]. unfold settle. rewrite Hi. cbn [nth_error].
  unfold resultPanel. cbn. rewrite He.
  pose proof (textOrDefault_truthy text) as Ht.
  destruct (textOrDefault text); [congruence | reflexivity].
Qed.

Lemma success_on_panel_witness :
  let w := run asciiLower initialWorld
             [ChangeInput (lit "hi"); ClickAction refine (Some (lit "no key"));
              ClickAction refine None] in
  resultPanel (ui (step asciiLower w (Settle 0 (Fulfilled None)))) =
  Formatted NO_RESPONSE.
Proof.
  apply (success_on_panel asciiLower
           [ChangeInput (lit "hi"); ClickAction refine (Some (lit "no key"));
            ClickAction refine None] None).
  discriminate.
Defined.

(** X10.  After a failure the output section shows the banner with the
    fixed message if an earlier result is in [output], and is not rendered
    at all if there is none; this holds for a rejected call and for a throw
    before the call leaves. *)
Theorem failure_on_panel_cases (err : Thrown) (w : World) :
  (forall i r,
     nth_error (inflight w) i = Some r ->
     resultPanel (ui (settle i (Rejected err) w)) =
     if truthy (output (ui w)) then Banner SUN_MESSAGE else Hidden) /\
  (forall action,
     trim (input (ui w)) <> [] ->
     resultPanel (ui (handleRefine action (Some err) w)) =
     if truthy (output (ui w)) then Banner SUN_MESSAGE else Hidden).
Proof.
  split.
  - intros i r Hn. unfold settle. rewrite Hn. unfold resultPanel. cbn.
    now destruct (truthy (output (ui w))).
  - intros action Hne. unfold handleRefine.
    destruct (trim (input (ui w))); [congruence |].
    unfold resultPanel. cbn. now destruct (truthy (output (ui w))).
Qed.

Lemma failure_on_panel_cases_witness :
  let w := run asciiLower initialWorld
             [ChangeInput (lit "hi"); ClickAction refine None] in
  resultPanel (ui (settle 0 (Rejected (lit "Failed to fetch")) w)) = Hidden /\
  resultPanel
    (ui (handleRefine improve (Some (lit "no key"))
           (onState (setInput (lit "hi")) initialWorld))) = Hidden.
Proof.
  split.
  - apply (proj1 (failure_on_panel_cases (lit "Failed to fetch")
             (run asciiLower initialWorld
                [ChangeInput (lit "hi"); ClickAction refine None])) 0%nat
             (mkRequest MODEL (prompt refine professional [lit "please"] (lit "hi")))).
    reflexivity.
  - apply (proj2 (failure_on_panel_cases (lit "no key")
             (onState (setInput (lit "hi")) initialWorld)) improve).
    discriminate.
Defined.

Lemma step_output_empty (lower : jsstring -> jsstring) (w : World) (e : Event) :
  notFulfilled e = true -> output (ui w) = [] -> output (ui (step lower w e)) = [].
Proof.
  intros He H.
  destruct e as [v | t | v | | word | action thrown | i o | | dt]; cbn [step].
  - exact H.
  - exact H.
  - exact H.
  - cbn [onState ui]. now rewrite (proj2 (addAvoidWord_cells lower (ui w))).
  - exact H.
  - destruct (actionDisabled (ui w)); [exact H |].
    unfold handleRefine.
    destruct (negb (truthy (trim (input (ui w))))); [exact H |].
    now destruct thrown.
  - unfold settle. destruct (nth_error (inflight w) i); [| exact H].
    destruct o as [text | err]; [discriminate He | exact H].
  - now destruct (copyRendered (ui w)).
  - destruct (elapse_frame dt w) as [Hu _]. rewrite Hu. exact H.
Qed.

Lemma run_output_empty (lower : jsstring -> jsstring) (es : list Event)
    (w : World) :
  forallb notFulfilled es = true -> output (ui w) = [] ->
  output (ui (run lower w es)) = [].
Proof.
  revert w. induction es as [| e es IH]; intros w Hes H; [exact H |].
  cbn [forallb] in Hes. apply andb_true_iff in Hes as [He Hes].
  apply (IH _ Hes). now apply step_output_empty.
Qed.

(** X11.  As long as no call has been fulfilled, the output section is
    absent or shows the loading skeleton: whatever fails in that time, the
    banner with the stored message is never put on the page. *)
Theorem no_banner_before_first_result (toLowerCase : jsstring -> jsstring)
    (es : list Event) :
  forallb notFulfilled es = true ->
  let w := run toLowerCase initialWorld es in
  output (ui w) = [] /\
  (resultPanel (ui w) = Hidden \/ resultPanel (ui w) = Skeleton).
Proof.
  intros Hes w.
  assert (Ho : output (ui w) = []).
  { apply run_output_empty; [exact Hes | reflexivity]. }
  split; [exact Ho |].
  unfold resultPanel. rewrite Ho. cbn [truthy orb].
  destruct (isLoading (ui w)); [now right | now left].
Qed.

Lemma no_banner_before_first_result_witness :
  let w := run asciiLower initialWorld
             [ChangeInput (lit "hi"); ClickAction refine None;
              Settle 0 (Rejected (lit "Failed to fetch"));
              ClickAction improve (Some (lit "no key"))] in
  error (ui w) = Some SUN_MESSAGE /\
  output (ui w) = [] /\
  (resultPanel (ui w) = Hidden \/ resultPanel (ui w) = Skeleton).
Proof.
  split; [reflexivity |].
  apply (no_banner_before_first_result asciiLower
           [ChangeInput (lit "hi"); ClickAction refine None;
            Settle 0 (Rejected (lit "Failed to fetch"));
            ClickAction improve (Some (lit "no key"))]).
  reflexivity.
Defined.

(** X12.  In every state the component reaches with the action buttons
    enabled, a click issues exactly the one request built from the current
    draft, tone and avoid-words, empties the [error] cell, and turns the
    output section into the loading skeleton. *)
Theorem enabled_click_starts_request (toLowerCase : jsstring -> jsstring)
    (es : list Event) (action : Action) :
  let w := run toLowerCase initialWorld es in
  actionDisabled (ui w) = false ->
  let w' := step toLowerCase w (ClickAction action None) in
  inflight w' =
    [mkRequest MODEL
       (prompt action (selectedTone (ui w)) (avoidWords (ui w)) (input (ui w)))] /\
  error (ui w') = None /\
  resultPanel (ui w') = Skeleton.
Proof.
  intros w Hd w'. subst w'. cbn [step]. rewrite Hd.
  pose proof (reach_pendingMatches toLowerCase es) as Hp.
  fold w in Hp. unfold pendingMatches in Hp.
  unfold actionDisabled in Hd. apply orb_false_iff in Hd as [Hl Hb].
  rewrite Hl in Hp. unfold handleRefine. rewrite Hb.
  destruct (inflight w) eqn:Hi; [| discriminate].
  unfold resultPanel. cbn. rewrite Hi, orb_true_r. now repeat split.
Qed.

Lemma enabled_click_starts_request_witness :
  let w := run asciiLower initialWorld
             [ChangeInput (lit "hi"); ClickTone casual] in
  inflight (step asciiLower w (ClickAction improve None)) =
    [mkRequest MODEL (prompt improve casual [lit "please"] (lit "hi"))] /\
  resultPanel (ui (step asciiLower w (ClickAction improve None))) = Skeleton.
Proof.
  destruct (enabled_click_starts_request asciiLower
              [ChangeInput (lit "hi"); ClickTone casual] improve eq_refl)
    as [Hi [_ Hp]].
  exact (conj Hi Hp).
Defined.

Lemma step_while_loading (lower : jsstring -> jsstring) (w : World) (e : Event) :
  notSettle e = true -> isLoading (ui w) = true ->
  inflight (step lower w e) = inflight w /\
  isLoading (ui (step lower w e)) = true.
Proof.
  intros He Hl.
  destruct e as [v | t | v | | word | action thrown | i o | | dt];
    cbn [step]; try discriminate He; try (split; [reflexivity | exact Hl]).
  - cbn [onState ui inflight]. now rewrite addAvoidWord_isLoading.
  - unfold actionDisabled. rewrite Hl. cbn [orb]. now split.
  - destruct (copyRendered (ui w)); now split.
  - unfold elapse.
    match goal with
    | |- context [fold_left ?f ?due ?w0] =>
        destruct (runCallbacks_keep due w0) as [Hi Hk]
    end.
    cbn zeta in Hi, Hk. rewrite Hi, Hk. now split.
Qed.

(** X13.  While the loading flag is up, no click, edit, copy or timer
    cancels, replaces or adds a call: until a settlement arrives the calls
    in flight are the same and the flag stays up. *)
Theorem pending_call_survives (toLowerCase : jsstring -> jsstring)
    (w : World) (es : list Event) :
  isLoading (ui w) = true ->
  forallb notSettle es = true ->
  inflight (run toLowerCase w es) = inflight w /\
  isLoading (ui (run toLowerCase w es)) = true.
Proof.
  revert w. induction es as [| e es IH]; intros w Hl Hes; [now split |].
  cbn [forallb] in Hes. apply andb_true_iff in Hes as [He Hes].
  destruct (step_while_loading toLowerCase w e He Hl) as [Hi Hl'].
  destruct (IH (step toLowerCase w e) Hl' Hes) as [Hi' Hl''].
  change (run toLowerCase w (e :: es))
    with (run toLowerCase (step toLowerCase w e) es).
  split; [now rewrite Hi', Hi | exact Hl''].
Qed.

Lemma pending_call_survives_witness :
  let w := run asciiLower initialWorld
             [ChangeInput (lit "hi"); ClickAction refine None] in
  inflight
    (run asciiLower w
       [ChangeInput (lit "bye"); ClickTone fun_; ClickAction improve None;
        ClickRemove (lit "please"); Elapse 60000]) = inflight w.
Proof.
  apply (pending_call_survives asciiLower
           (run asciiLower initialWorld
              [ChangeInput (lit "hi"); ClickAction refine None])
           [ChangeInput (lit "bye"); ClickTone fun_; ClickAction improve None;
            ClickRemove (lit "please"); Elapse 60000]);
    reflexivity.
Defined.

(** ** The clipboard and the timer, continued *)

Lemma copyRendered_output (s : State) :
  copyRendered s = true -> output s <> [].
Proof.
  unfold copyRendered. destruct (output s); [| discriminate].
  cbn [truthy]. rewrite andb_false_r. discriminate.
Qed.

Lemma step_clipboardFilled (lower : jsstring -> jsstring) (w : World) (e : Event) :
  clipboardFilled w -> clipboardFilled (step lower w e).
Proof.
  unfold clipboardFilled. intros H.
  destruct e as [v | t | v | | word | action thrown | i o | | dt]; cbn [step].
  - exact H.
  - exact H.
  - exact H.
  - exact H.
  - exact H.
  - destruct (actionDisabled (ui w)); [exact H |].
    unfold handleRefine.
    destruct (negb (truthy (trim (input (ui w))))); [exact H |].
    now destruct thrown.
  - unfold settle. destruct (nth_error (inflight w) i); [| exact H].
    now destruct o.
  - destruct (copyRendered (ui w)) eqn:Hc; [| exact H].
    cbn. constructor; [now apply copyRendered_output | exact H].
  - destruct (elapse_frame dt w) as [_ [_ [_ Hb]]]. now rewrite Hb.
Qed.

(** X14.  The copy button never hands an empty string to the clipboard:
    in every state the component reaches, every text written so far is
    non-empty. *)
Theorem clipboard_never_empty (toLowerCase : jsstring -> jsstring)
    (es : list Event) :
  Forall (fun text => text <> [])
         (clipboard (run toLowerCase initialWorld es)).
Proof.
  apply (run_invariant toLowerCase clipboardFilled).
  - apply step_clipboardFilled.
  - constructor.
Qed.

(** X15.  After a failure that follows a success the banner hides the old
    result, yet the copy button is still rendered and copies that old
    result. *)
Theorem copy_under_banner (toLowerCase : jsstring -> jsstring)
    (w : World) (e : jsstring) :
  output (ui w) <> [] ->
  isLoading (ui w) = false ->
  error (ui w) = Some e ->
  e <> [] ->
  resultPanel (ui w) = Banner e /\
  clipboard (step toLowerCase w ClickCopy) = output (ui w) :: clipboard w.
Proof.
  intros Ho Hl He Hne. unfold resultPanel. cbn [step]. unfold copyRendered.
  rewrite Hl, He.
  destruct (output (ui w)) eqn:Hout; [congruence |].
  destruct e; [congruence |]. cbn. now rewrite Hout.
Qed.

Lemma copy_under_banner_witness :
  let w := run asciiLower initialWorld
             [ChangeInput (lit "hi"); ClickAction refine None;
              Settle 0 (Fulfilled (Some (lit "Hello team,")));
              ClickAction improve None;
              Settle 0 (Rejected (lit "Failed to fetch"))] in
  resultPanel (ui w) = Banner SUN_MESSAGE /\
  clipboard (step asciiLower w ClickCopy) = [lit "Hello team,"].
Proof.
  apply (copy_under_banner asciiLower
           (run asciiLower initialWorld
              [ChangeInput (lit "hi"); ClickAction refine None;
               Settle 0 (Fulfilled (Some (lit "Hello team,")));
               ClickAction improve None;
               Settle 0 (Rejected (lit "Failed to fetch"))])
           SUN_MESSAGE);
    first [reflexivity | discriminate].
Defined.

Lemma filter_none_rest {A : Type} (p : A -> bool) (l : list A) :
  filter p l = [] -> filter (fun x => negb (p x)) l = l.
Proof.
  induction l as [| x r IH]; [reflexivity |].
  cbn [filter]. destruct (p x); [discriminate |].
  intros H. cbn [negb]. f_equal. now apply IH.
Qed.

Lemma elapse_clock (dt : N) (w : World) :
  timers (elapse dt w) =
    filter (fun e => negb (fst e <=? now w + dt)) (timers w) /\
  now (elapse dt w) = now w + dt.
Proof.
  unfold elapse.
  match goal with
  | |- context [fold_left ?f ?due ?w0] =>
      destruct (runCallbacks_clock due w0) as [Ht Hn]
  end.
  cbn zeta in Ht, Hn. now rewrite Ht, Hn.
Qed.

Lemma step_timersAhead (lower : jsstring -> jsstring) (w : World) (e : Event) :
  timersAhead w -> timersAhead (step lower w e).
Proof.
  unfold timersAhead. intros [Hall Hback].
  destruct e as [v | t | v | | word | action thrown | i o | | dt]; cbn [step].
  - now split.
  - now split.
  - now split.
  - cbn [onState ui timers now]. rewrite addAvoidWord_copied. now split.
  - now split.
  - destruct (actionDisabled (ui w)); [now split |].
    destruct (handleRefine_clock action thrown w) as [Hc [Ht Hn]].
    cbn zeta in Hc, Ht, Hn. rewrite Hc, Ht, Hn. now split.
  - destruct (settle_clock i o w) as [Hc [Ht Hn]].
    cbn zeta in Hc, Ht, Hn. rewrite Hc, Ht, Hn. now split.
  - destruct (copyRendered (ui w)); [| now split].
    cbn. split.
    + apply Forall_app. split; [exact Hall |].
      constructor; [cbn; lia | constructor].
    + right. now destruct (timers w).
  - destruct (elapse_clock dt w) as [Ht Hn]. rewrite Ht, Hn. split.
    + rewrite Forall_forall in *. intros x Hx. apply filter_In in Hx as [Hx Hlate].
      apply negb_true_iff, N.leb_gt in Hlate.
      destruct (Hall x Hx) as [_ Hle]. lia.
    + destruct (filter (fun e => fst e <=? now w + dt) (timers w)) eqn:Hdue.
      * rewrite (filter_none_rest _ _ Hdue). unfold elapse. rewrite Hdue.
        exact Hback.
      * left. unfold elapse. rewrite Hdue. now apply runCallbacks_copied.
Qed.

(** X16.  In every state the component reaches, each armed timer is due
    after the present moment and at most 2000 ms from it, and "Copied!" is
    never shown without such a timer behind it: the badge cannot stay
    up. *)
Theorem copied_badge_has_timer (toLowerCase : jsstring -> jsstring)
    (es : list Event) :
  let w := run toLowerCase initialWorld es in
  Forall (fun e => now w < fst e /\ fst e <= now w + 2000) (timers w) /\
  (copied (ui w) = false \/ timers w <> []).
Proof.
  apply (run_invariant toLowerCase timersAhead).
  - apply step_timersAhead.
  - split; [constructor | now left].
Qed.

(** X17.  A second copy inside the window does not restart it: the timer of
    the first copy is not cleared, so "Copied!" goes down 2000 ms after the
    first copy, however recent the second. *)
Theorem second_copy_keeps_first_deadline (w : World) (d1 dt : N) :
  d1 < 2000 ->
  2000 <= d1 + dt ->
  copied (ui (elapse dt (copyToClipboard (elapse d1 (copyToClipboard w))))) =
  false.
Proof.
  intros H1 H2. unfold elapse at 1. apply runCallbacks_copied.
  intros Hnil.
  assert (Hin : In (now w + 2000, ResetCopied)
                   (timers (elapse d1 (copyToClipboard w)))).
  { rewrite (proj1 (elapse_clock d1 (copyToClipboard w))).
    apply filter_In. split.
    - cbn. apply in_or_app. right. now left.
    - apply negb_true_iff, N.leb_gt. cbn. lia. }
  assert (Hd : In (now w + 2000, ResetCopied)
                 (filter
                    (fun e => fst e <=?
                       now (copyToClipboard (elapse d1 (copyToClipboard w))) + dt)
                    (timers (copyToClipboard (elapse d1 (copyToClipboard w)))))).
  { apply filter_In. split.
    - cbn [copyToClipboard andThen setTimeout onState writeText timers].
      apply in_or_app. left. exact Hin.
    - apply N.leb_le.
      change (now (copyToClipboard (elapse d1 (copyToClipboard w))))
        with (now (elapse d1 (copyToClipboard w))).
      rewrite (proj2 (elapse_clock d1 (copyToClipboard w))). cbn. lia. }
  rewrite Hnil in Hd. exact Hd.
Qed.

Lemma second_copy_keeps_first_deadline_witness :
  let w := onState (setOutput (lit "Hello team,")) initialWorld in
  copied (ui (elapse 500 (copyToClipboard (elapse 1500 (copyToClipboard w)))))
    = false.
Proof.
  apply (second_copy_keeps_first_deadline
           (onState (setOutput (lit "Hello team,")) initialWorld) 1500 500);
    [reflexivity | discriminate].
Defined.

(** ** The prompt, continued *)

Lemma join_merge (sep x y : jsstring) (rest : list jsstring) :
  join sep ((x ++ sep ++ y) :: rest) = join sep (x :: y :: rest).
Proof.
  rewrite join_cons. destruct rest as [| z rest]; [reflexivity |].
  rewrite !join_cons. now rewrite <- !app_assoc.
Qed.

(** X18.  The constraint line does not delimit its entries: a listed word
    that itself holds ", " gives the very prompt that two separate entries
    would give. *)
Theorem avoid_entries_not_delimited (action : Action) (tone : Tone)
    (draft x y : jsstring) (rest : list jsstring) :
  prompt action tone ((x ++ lit ", " ++ y) :: rest) draft =
  prompt action tone (x :: y :: rest) draft.
Proof.
  unfold prompt, avoidPrompt. now rewrite join_merge.
Qed.

(** X19.  The prompt tells the action and the tone it was built for, and,
    for a given action, tone and avoid-list, the draft: two requests are
    equal only if these were. *)
Theorem prompt_determines_selection :
  (forall a1 t1 ws1 d1 a2 t2 ws2 d2,
     prompt a1 t1 ws1 d1 = prompt a2 t2 ws2 d2 -> a1 = a2 /\ t1 = t2) /\
  (forall a t ws d1 d2,
     prompt a t ws d1 = prompt a t ws d2 -> d1 = d2).
Proof.
  split.
  - intros a1 t1 ws1 d1 a2 t2 ws2 d2 H.
    assert (Ha : a1 = a2).
    { apply (f_equal (firstn 110)) in H.
      destruct a1, a2; try reflexivity; vm_compute in H; discriminate H. }
    subst a2. split; [reflexivity |].
    apply (f_equal (firstn 360)) in H.
    destruct a1, t1, t2; try reflexivity; vm_compute in H; discriminate H.
  - intros a t ws d1 d2 H. unfold prompt in H.
    repeat apply app_inv_head in H.
    now apply app_inv_tail in H.
Qed.

Lemma prompt_determines_selection_witness :
  refine = refine /\ casual = casual /\ lit "hi" = lit "hi".
Proof.
  destruct prompt_determines_selection as [Hsel Hdraft].
  destruct (Hsel refine casual [lit "please"] (lit "hi")
                 refine casual [lit "please"] (lit "hi") eq_refl) as [Ha Ht].
  exact (conj Ha (conj Ht
           (Hdraft refine casual [lit "please"] (lit "hi") (lit "hi") eq_refl))).
Defined.

(** ** The tone selector *)

Ltac other_buttons :=
  split; [reflexivity |];
  split; [reflexivity |];
  split; [discriminate |];
  let c' := fresh "c" in
  let Hin := fresh "Hin" in
  let Hne := fresh "Hne" in
  intros c' Hin Hne;
  destruct Hin as [<- | [<- | [<- | [<- | []]]]];
  first [ congruence | split; [discriminate | reflexivity] ].

(** X20.  Every tone has exactly one button in [TONES].  After a click on
    the button of [t], that button carries its active class and the other
    three carry the inactive one, and no active class is the inactive
    one. *)
Theorem tone_buttons (toLowerCase : jsstring -> jsstring) (w : World)
    (t : Tone) :
  let s := ui (step toLowerCase w (ClickTone t)) in
  exists c,
    In c ToneSelector.TONES /\
    ToneSelector.id c = t /\
    ToneSelector.buttonClass (selectedTone s) c = ToneSelector.activeClass c /\
    ToneSelector.activeClass c <> ToneSelector.INACTIVE_CLASS /\
    (forall c', In c' ToneSelector.TONES -> c' <> c ->
       ToneSelector.id c' <> t /\
       ToneSelector.buttonClass (selectedTone s) c' =
       ToneSelector.INACTIVE_CLASS).
Proof.
  cbn zeta. cbn [step onState ui selectedTone setSelectedTone].
  destruct t; eexists.
  - split; [left; reflexivity | other_buttons].
  - split; [right; left; reflexivity | other_buttons].
  - split; [right; right; left; reflexivity | other_buttons].
  - split; [right; right; right; left; reflexivity | other_buttons].
Qed.

Lemma tone_buttons_witness :
  exists c,
    In c ToneSelector.TONES /\
    ToneSelector.id c = fun_ /\
    ToneSelector.buttonClass fun_ c = lit "bg-orange-500 text-white shadow-lg shadow-orange-100".
Proof.
  destruct (tone_buttons asciiLower initialWorld fun_)
    as [c [Hin [Hid [Hclass [_ Hothers]]]]].
  exists c. split; [exact Hin | split; [exact Hid |]].
  cbn in Hclass. rewrite Hclass.
  destruct Hin as [<- | [<- | [<- | [<- | []]]]];
    first [discriminate Hid | reflexivity].
Defined.
